(** * cbang: event-driven HTTP front, worker pool and option store

    A shallow embedding of
      - src/cbang/event/HTTP.cpp            (module [HTTP]),
      - src/cbang/event/ConcurrentPool.cpp  (module [ConcurrentPool]),
      - src/cbang/config/Option.cpp         (module [Option]),
    together with the properties their specification states.

    C++ member functions become computations in a small state-and-error
    monad: a state mutated before a [throw] stays mutated, as in C++, and
    [try]/[catch] inspects the thrown value.  Virtual calls into user code
    (the HTTP handler, the request's reply functions, the task callbacks,
    the option constraint) are oracles over an abstract collaborator state;
    every call site records the call in a trace. *)

From Stdlib Require Import ZArith NArith List Ascii String Bool Lia Permutation.
From stdpp Require Import base list gmap strings.

Set Implicit Arguments.
Local Open Scope string_scope.
Local Open Scope list_scope.

(** ** Thrown values and outcomes *)

(** [cb::Exception]: a message and an integer code ([getCode]). *)
Record Exception : Type := mkException {
  message : string;
  code : Z;
}.

(** What a C++ [throw] can carry, as far as the catch clauses of the
    sources distinguish: a [cb::Exception], some other [std::exception]
    (with its [what()]), or anything else. *)
Inductive thrown : Type :=
  | ThrowException (e : Exception)
  | ThrowStd (what : string)
  | ThrowOther.

(** Outcome of a call.  [NullDeref] is [operator->] applied to an unset
    [SmartPointer]; SmartPointer.h is not among the sources, so this fault
    is kept apart from the thrown values that catch clauses match on. *)
Inductive result (A : Type) : Type :=
  | Ok (a : A)
  | Raise (t : thrown)
  | NullDeref.

Arguments Ok {A} a.
Arguments Raise {A} t.
Arguments NullDeref {A}.

(** Outcome of a call into code that is not embedded here (user callbacks,
    the socket layer, the parsers): it returns or it throws. *)
Inductive outcome (A : Type) : Type :=
  | Returns (a : A)
  | Throws (t : thrown).

Arguments Returns {A} a.
Arguments Throws {A} t.

Definition of_outcome {A} (o : outcome A) : result A :=
  match o with
  | Returns a => Ok a
  | Throws t => Raise t
  end.

#[global] Instance Exception_eq_dec : EqDecision Exception.
Proof. solve_decision. Defined.

#[global] Instance thrown_eq_dec : EqDecision thrown.
Proof. solve_decision. Defined.

(** ** The state-and-error monad *)

Module Eff.

Definition M (S A : Type) : Type := S -> S * result A.

Definition ret {S A} (a : A) : M S A := fun s => (s, Ok a).

Definition bind {S A B} (m : M S A) (k : A -> M S B) : M S B :=
  fun s =>
    match m s with
    | (s', Ok a) => k a s'
    | (s', Raise t) => (s', Raise t)
    | (s', NullDeref) => (s', NullDeref)
    end.

Definition raise {S A} (t : thrown) : M S A := fun s => (s, Raise t).

(** [THROW(msg)]: the macro of cbang/Exception.h raises a [cb::Exception]
    carrying the message; no code is given, and the exception is written
    with code 0 here. *)
Definition THROW {S A} (msg : string) : M S A :=
  raise (ThrowException (mkException msg 0)).

Definition null_deref {S A} : M S A := fun s => (s, NullDeref).

Definition get {S} : M S S := fun s => (s, Ok s).

Definition gets {S A} (f : S -> A) : M S A := fun s => (s, Ok (f s)).

Definition modify {S} (f : S -> S) : M S unit := fun s => (f s, Ok tt).

(** [try m catch h]: [h t = None] means no clause matches [t], which then
    propagates.  A handler runs in the state the body left behind. *)
Definition try_catch {S A} (m : M S A) (h : thrown -> option (M S A)) : M S A :=
  fun s =>
    match m s with
    | (s', Raise t) =>
        match h t with
        | Some k => k s'
        | None => (s', Raise t)
        end
    | other => other
    end.

(** [SmartPointer::operator->]. *)
Definition deref {S A} (p : option A) : M S A :=
  match p with
  | Some a => ret a
  | None => null_deref
  end.

Definition when {S} (b : bool) (m : M S unit) : M S unit :=
  if b then m else ret tt.

End Eff.

Import Eff.

Declare Scope eff_scope.
Delimit Scope eff_scope with eff.
Notation "x <- c1 ;; c2" := (bind c1 (fun x => c2))
  (at level 100, c1 at next level, right associativity) : eff_scope.
Notation "c1 ;; c2" := (bind c1 (fun _ => c2))
  (at level 100, right associativity) : eff_scope.
Local Open Scope eff_scope.

(** ** Logging *)

(** Modelled from the spec: the logging macros of cbang/log/Logger.h are
    not among the sources.  A statement [LOG_x(a << b << ...)] is recorded
    as one entry at level [x] holding the streamed items in order. *)
Inductive LogLevel : Type := LogError | LogWarning | LogDebug (level : nat).

(** ** The HTTP server front (HTTP.cpp) *)

Module HTTP.

Record IPAddress : Type := mkIP { ip : N; port : N }.

#[global] Instance IPAddress_eq_dec : EqDecision IPAddress.
Proof. solve_decision. Defined.

(** The part of a [Request] that HTTP.cpp reads. *)
Record Request : Type := mkRequest { getID : N; getClientIP : IPAddress }.

#[global] Instance Request_eq_dec : EqDecision Request.
Proof. solve_decision. Defined.

Definition HTTP_NOT_FOUND : Z := 404.
Definition HTTP_INTERNAL_SERVER_ERROR : Z := 500.

(** Items streamed into a log statement with [<<]. *)
Inductive Piece : Type :=
  | PStr (s : string)
  | PChr (c : ascii)
  | PNum (n : N)
  | PAddr (a : IPAddress)
  | PExc (e : Exception).

(** *** Events *)

Inductive callback : Type := ExpireCB | AcceptCB.

Inductive EventFlag : Type := EVENT_READ | EVENT_PERSIST | EVENT_NO_SELF_REF.

(** Modelled from the spec: Event.h and Base.h are not among the sources.
    "Each returned handle supports add(delaySeconds?), del(),
    setPriority(p), activate(), isPending()"; "a non-persistent event is
    automatically deregistered after one firing". *)
Record Event : Type := mkEvent {
  ev_callback : callback;
  ev_fd : option N;
  ev_flags : list EventFlag;
  ev_priority : option Z;      (* [None]: never set *)
  ev_pending : bool;
  ev_timeout : option N;       (* seconds; [None]: no timeout *)
}.

Definition is_persist (f : EventFlag) : bool :=
  match f with EVENT_PERSIST => true | _ => false end.

Definition ev_persistent (e : Event) : bool := existsb is_persist (ev_flags e).

Definition ev_setPriority (p : Z) (e : Event) : Event :=
  mkEvent (ev_callback e) (ev_fd e) (ev_flags e) (Some p) (ev_pending e)
          (ev_timeout e).

Definition ev_add (delay : option N) (e : Event) : Event :=
  mkEvent (ev_callback e) (ev_fd e) (ev_flags e) (ev_priority e) true delay.

Definition ev_del (e : Event) : Event :=
  mkEvent (ev_callback e) (ev_fd e) (ev_flags e) (ev_priority e) false
          (ev_timeout e).

Definition isPending (e : Event) : bool := ev_pending e.

(** The reactor fires a pending event: a persistent one stays registered
    with its timeout, any other is deregistered. *)
Definition ev_fire (e : Event) : Event :=
  if ev_persistent e then e else ev_del e.

(** Modelled from the spec: the default flags of [Base::newEvent] are
    declared in Base.h, which is not among the sources; the expiry timer
    made with them is "a recurring 60-second timer", so the default is
    persistent. *)
Definition default_flags : list EventFlag := [EVENT_PERSIST].

Definition newEvent (cb : callback) (fd : option N) (flags : list EventFlag)
  : Event := mkEvent cb fd flags None false None.

(** Modelled from the spec: RateSet.h is not among the sources; the
    statistics sink counts named events ("counted as timedout in stats"). *)
Definition stats_event (name : string) (s : gmap string N) : gmap string N :=
  <[name := (default 0 (s !! name) + 1)%N]> s.

Definition stats_count (name : string) (s : gmap string N) : N :=
  default 0%N (s !! name).

Section Server.

(** [time] stands for C++ [double]: [Timer::now()] and the start time of a
    connection.  [of_unsigned] is the conversion the comparison
    [maxConnectionTTL < now - start] applies to its [unsigned] operand. *)
Context {time : Type}.
Variable time_sub : time -> time -> time.
Variable time_lt : time -> time -> bool.
Variable of_unsigned : N -> time.

(** Modelled from the spec: Connection.h is not among the sources.  A
    connection has an identity (its address), a peer, a socket, a start
    time, and the server-wide settings applied on accept. *)
Record Connection : Type := mkConnection {
  con_ptr : N;
  con_peer : IPAddress;
  con_socket : N;
  getStartTime : time;
  con_hasHTTP : bool;
  con_maxHeaderSize : N;
  con_maxBodySize : N;
  con_priority : option Z;
  con_readTimeout : N;
  con_writeTimeout : N;
  con_stats : bool;
}.

Definition con_configure (hs bs : N) (prio : Z) (rt wt : N) (st : bool)
    (c : Connection) : Connection :=
  mkConnection (con_ptr c) (con_peer c) (con_socket c) (getStartTime c)
    true hs bs (if (0 <=? prio)%Z then Some prio else con_priority c)
    rt wt st.

(** Settings that none of the embedded functions assigns. *)
Record Config : Type := mkConfig {
  maxConnections : N;
  connectionBacklog : N;
  maxHeaderSize : N;
  maxBodySize : N;
  readTimeout : N;
  writeTimeout : N;
  sslCtx : option N;
}.

Record HTTP : Type := mkHTTP {
  config : Config;
  maxConnectionTTL : N;
  priority : Z;
  stats : option (gmap string N);
  expireEvent : option Event;
  acceptEvent : option Event;
  socket : option N;           (* the listening socket, by descriptor *)
  boundAddr : IPAddress;
  connections : list Connection;
}.

(** A server as its constructor leaves it: no handle is set and the
    connection list is empty. *)
Definition init (cfg : Config) (ttl : N) (prio : Z)
    (st : option (gmap string N)) (addr0 : IPAddress) : HTTP :=
  mkHTTP cfg ttl prio st None None None addr0 [].

Definition set_maxConnectionTTL (x : N) (h : HTTP) : HTTP :=
  mkHTTP (config h) x (priority h) (stats h) (expireEvent h) (acceptEvent h)
         (socket h) (boundAddr h) (connections h).
Definition set_priority (p : Z) (h : HTTP) : HTTP :=
  mkHTTP (config h) (maxConnectionTTL h) p (stats h) (expireEvent h)
         (acceptEvent h) (socket h) (boundAddr h) (connections h).
Definition set_stats (s : option (gmap string N)) (h : HTTP) : HTTP :=
  mkHTTP (config h) (maxConnectionTTL h) (priority h) s (expireEvent h)
         (acceptEvent h) (socket h) (boundAddr h) (connections h).
Definition set_expireEvent (e : option Event) (h : HTTP) : HTTP :=
  mkHTTP (config h) (maxConnectionTTL h) (priority h) (stats h) e
         (acceptEvent h) (socket h) (boundAddr h) (connections h).
Definition set_acceptEvent (e : option Event) (h : HTTP) : HTTP :=
  mkHTTP (config h) (maxConnectionTTL h) (priority h) (stats h)
         (expireEvent h) e (socket h) (boundAddr h) (connections h).
Definition set_socket (s : option N) (h : HTTP) : HTTP :=
  mkHTTP (config h) (maxConnectionTTL h) (priority h) (stats h)
         (expireEvent h) (acceptEvent h) s (boundAddr h) (connections h).
Definition set_boundAddr (a : IPAddress) (h : HTTP) : HTTP :=
  mkHTTP (config h) (maxConnectionTTL h) (priority h) (stats h)
         (expireEvent h) (acceptEvent h) (socket h) a (connections h).
Definition set_connections (l : list Connection) (h : HTTP) : HTTP :=
  mkHTTP (config h) (maxConnectionTTL h) (priority h) (stats h)
         (expireEvent h) (acceptEvent h) (socket h) (boundAddr h) l.

(** *** Collaborators

    [W] is the state of everything HTTP.cpp calls into but does not
    define: the handler, the request's reply functions, the sockets, the
    clock. *)
Context {W : Type}.

Record Env : Type := mkEnv {
  h_handleRequest : Request -> W -> W * outcome bool;
  h_endRequest : Request -> W -> W * outcome unit;
  h_evict : list Connection -> W -> W * (list Connection * outcome unit);
  r_sendError : Request -> Z -> W -> W * outcome unit;
  r_sendErrorException : Request -> Exception -> W -> W * outcome unit;
  r_sendErrorStd : Request -> string -> W -> W * outcome unit;
  r_reply : Request -> Z -> W -> W * outcome unit;
  s_listen : IPAddress -> N -> W -> W * outcome N;
  s_accept : N -> W -> W * outcome (option (IPAddress * N));
  s_setBuffers : N -> W -> W * outcome unit;
  c_new : IPAddress -> N -> option N -> W -> W * outcome Connection;
  c_acceptRequest : Connection -> W -> W * outcome unit;
  timer_now : W -> time;
  getMessages : Exception -> string;
  status_description : Z -> string;
  debug_enabled : nat -> bool;
}.

Variable E : Env.

(** Calls that leave HTTP.cpp, in the order they are made. *)
Inductive Call : Type :=
  | CHandleRequest (r : Request)
  | CEndRequest (r : Request)
  | CEvict (cs : list Connection)
  | CSendError (r : Request) (status : Z)
  | CSendErrorException (r : Request) (e : Exception)
  | CSendErrorStd (r : Request) (what : string)
  | CReply (r : Request) (status : Z)
  | CListen (a : IPAddress) (backlog : N)
  | CAccept (fd : N)
  | CSetBuffers (sock : N)
  | CNewConnection (peer : IPAddress) (sock : N)
  | CAcceptRequest (c : Connection)
  | CLog (lvl : LogLevel) (msg : list Piece).

Record Sys : Type := mkSys {
  http : HTTP;
  world : W;
  trace : list Call;
}.

Definition call {A} (c : Call) (f : W -> W * outcome A) : M Sys A :=
  fun s =>
    let (w', r) := f (world s) in
    (mkSys (http s) w' (trace s ++ [c]), of_outcome r).

Definition log (lvl : LogLevel) (msg : list Piece) : M Sys unit :=
  fun s => (mkSys (http s) (world s) (trace s ++ [CLog lvl msg]), Ok tt).

Definition LOG_DEBUG (level : nat) (msg : list Piece) : M Sys unit :=
  when (debug_enabled E level) (log (LogDebug level) msg).

Definition update (f : HTTP -> HTTP) : M Sys unit :=
  modify (fun s => mkSys (f (http s)) (world s) (trace s)).

Definition read {A} (f : HTTP -> A) : M Sys A := gets (fun s => f (http s)).

Definition isSet {A} (p : option A) : bool :=
  match p with Some _ => true | None => false end.

Definition isNull {A} (p : option A) : bool := negb (isSet p).

(** [expireEvent->f()] and [acceptEvent->f()] for a member [f] that
    changes the event. *)
Definition with_expireEvent (f : Event -> Event) : M Sys unit :=
  p <- read expireEvent;;
  e <- deref p;;
  update (set_expireEvent (Some (f e))).

Definition with_acceptEvent (f : Event -> Event) : M Sys unit :=
  p <- read acceptEvent;;
  e <- deref p;;
  update (set_acceptEvent (Some (f e))).

(** [0 < priority ? priority - 1 : priority] *)
Definition timer_priority (priority : Z) : Z :=
  if (0 <? priority)%Z then (priority - 1)%Z else priority.

(** [void HTTP::setMaxConnectionTTL(unsigned x)] *)
Definition setMaxConnectionTTL (x : N) : M Sys unit :=
  update (set_maxConnectionTTL x);;
  ttl <- read maxConnectionTTL;;
  if negb (ttl =? 0)%N then
    p <- read expireEvent;;
    when (isNull p)
      (update (set_expireEvent (Some (newEvent ExpireCB None default_flags))));;
    prio <- read priority;;
    with_expireEvent (ev_setPriority (timer_priority prio));;
    with_expireEvent (ev_add (Some 60%N))
  else
    p <- read expireEvent;;
    e <- deref p;;
    if isPending e then with_expireEvent ev_del else ret tt.

(** [void HTTP::setEventPriority(int priority)] *)
Definition setEventPriority (prio : Z) : M Sys unit :=
  update (set_priority prio);;
  if (0 <=? prio)%Z then
    let p := timer_priority prio in
    pe <- read expireEvent;;
    when (isSet pe) (with_expireEvent (ev_setPriority p));;
    pa <- read acceptEvent;;
    when (isSet pa) (with_acceptEvent (ev_setPriority p))
  else ret tt.

(** [void HTTP::remove(Connection &con)]: [std::list::remove] drops every
    element equal to [&con], that is, the connection at that address. *)
Definition remove (con : Connection) : M Sys unit :=
  cs <- read connections;;
  update (set_connections
            (List.filter (fun c => negb (con_ptr c =? con_ptr con)%N) cs));;
  with_acceptEvent (ev_add None).

(** [void HTTP::bind(const cb::IPAddress &addr)].  Creating the socket,
    [setReuseAddr], [bind], [listen] and [get] are one call into the socket
    layer, which yields the descriptor or throws. *)
Definition bind (addr : IPAddress) : M Sys unit :=
  sock <- read socket;;
  if isSet sock then THROW "Already bound"
  else
    backlog <- read (fun h => connectionBacklog (config h));;
    fd <- call (CListen addr backlog) (s_listen E addr backlog);;
    update (set_acceptEvent
              (Some (newEvent AcceptCB (Some fd)
                       [EVENT_READ; EVENT_PERSIST; EVENT_NO_SELF_REF])));;
    prio <- read priority;;
    when (0 <=? prio)%Z
         (with_acceptEvent (ev_setPriority (timer_priority prio)));;
    with_acceptEvent (ev_add None);;
    update (set_socket (Some fd));;
    update (set_boundAddr addr).

(** What a caught value contributes to a log entry. *)
Definition thrown_piece (t : thrown) : list Piece :=
  match t with
  | ThrowException e => [PExc e]
  | ThrowStd what => [PStr what]
  | ThrowOther => []
  end.

(** Modelled from the spec: the macros of cbang/Catch.h are not among the
    sources.  [try {...} CATCH_ERROR] catches every thrown value and logs
    it at error level ("each callback is wrapped in a catch-all that logs
    and discards"). *)
Definition CATCH_ERROR (m : M Sys unit) : M Sys unit :=
  try_catch m (fun t => Some (log LogError (thrown_piece t))).

(** [bool HTTP::dispatch(HTTPHandler &handler, Request &req)], in three
    parts: the body of the [try], the catch clauses, and the function.
    The body of the [try] yields [Some true] when it returns from the
    function and [None] when control falls through to the statements after
    the [try]/[catch]; every catch clause falls through. *)
Definition dispatch_try (req : Request) : M Sys (option bool) :=
  b <- call (CHandleRequest req) (h_handleRequest E req);;
  if b : bool then
    call (CEndRequest req) (h_endRequest E req);;
    ret (Some true)
  else
    call (CSendError req HTTP_NOT_FOUND) (r_sendError E req HTTP_NOT_FOUND);;
    ret None.

Definition dispatch_catch (req : Request) (t : thrown) : M Sys (option bool) :=
  match t with
  | ThrowException e =>
      if (400 <=? code e)%Z && (code e <? 600)%Z then
        log LogWarning
            [PStr "REQ"; PNum (getID req); PChr ":";
             PAddr (getClientIP req); PChr ":"; PStr (getMessages E e)];;
        call (CReply req (code e)) (r_reply E req (code e));;
        ret None
      else
        when (negb (debug_enabled E 3))
             (log LogWarning [PStr (getMessages E e)]);;
        LOG_DEBUG 3 [PExc e];;
        call (CSendErrorException req e) (r_sendErrorException E req e);;
        ret None
  | ThrowStd what =>
      log LogError [PStr what];;
      call (CSendErrorStd req what) (r_sendErrorStd E req what);;
      ret None
  | ThrowOther =>
      log LogError [PStr (status_description E HTTP_INTERNAL_SERVER_ERROR)];;
      call (CSendError req HTTP_INTERNAL_SERVER_ERROR)
           (r_sendError E req HTTP_INTERNAL_SERVER_ERROR);;
      ret None
  end.

Definition dispatch (req : Request) : M Sys bool :=
  r <- try_catch (dispatch_try req) (fun t => Some (dispatch_catch req t));;
  match r with
  | Some b => ret b
  | None =>
      call (CEndRequest req) (h_endRequest E req);;
      ret false
  end.

(** [void HTTP::handleRequest(Request &req)] *)
Definition handleRequest (req : Request) : M Sys unit :=
  addr <- read boundAddr;;
  n <- read (fun h => N.of_nat (length (connections h)));;
  LOG_DEBUG 5 [PStr "New request on "; PAddr addr;
               PStr ", connection count = "; PNum n];;
  CATCH_ERROR (dispatch req;; ret tt).

(** The loop of [HTTP::expireCB].  The iterator splits the list into the
    elements already passed, [kept], and those not yet visited, [rest];
    [connections.erase(it)] drops the head of [rest].  [count] is an
    [unsigned]. *)
Fixpoint expire_loop (now : time) (kept rest : list Connection) (count : N)
    : M Sys N :=
  match rest with
  | [] => ret count
  | c :: rest' =>
      ttl <- read maxConnectionTTL;;
      if time_lt (of_unsigned ttl) (time_sub now (getStartTime c)) then
        update (set_connections (kept ++ rest'));;
        st <- read stats;;
        when (isSet st)
             (update (set_stats (option_map (stats_event "timedout") st)));;
        expire_loop now kept rest' ((count + 1) mod 2 ^ 32)%N
      else expire_loop now (kept ++ [c]) rest' count
  end.

(** [void HTTP::expireCB()] *)
Definition expireCB : M Sys unit :=
  now <- gets (fun s => timer_now E (world s));;
  cs <- read connections;;
  count <- expire_loop now [] cs 0%N;;
  LOG_DEBUG 4 [PStr "Dropped "; PNum count; PStr " expired connections"].

(** [handler->evict(connections)]: the hook receives the list by reference
    and may change it even when it ends by throwing. *)
Definition evict : M Sys unit :=
  fun s =>
    let cs := connections (http s) in
    let '(w', (cs', r)) := h_evict E cs (world s) in
    (mkSys (set_connections cs' (http s)) w' (trace s ++ [CEvict cs]),
     of_outcome r).

Definition connection_count : M Sys N :=
  read (fun h => N.of_nat (length (connections h))).

(** The second half of [HTTP::acceptCB]: accepting one socket and
    entering the connection it carries. *)
Definition accept_connection : M Sys unit :=
  p <- read socket;;
  fd <- deref p;;
  r <- call (CAccept fd) (s_accept E fd);;
  match r with
  | None => log LogError [PStr "Failed to accept new socket"]
  | Some (peer, newSocket) =>
      LOG_DEBUG 4 [PStr "New connection from "; PAddr peer];;
      call (CSetBuffers newSocket) (s_setBuffers E newSocket);;
      ssl <- read (fun h => sslCtx (config h));;
      con <- call (CNewConnection peer newSocket)
                  (c_new E peer newSocket ssl);;
      h <- read id;;
      let con' :=
        con_configure (maxHeaderSize (config h)) (maxBodySize (config h))
          (priority h) (readTimeout (config h)) (writeTimeout (config h))
          (isSet (stats h)) con in
      update (set_connections (connections h ++ [con']));;
      call (CAcceptRequest con') (c_acceptRequest E con')
  end.

(** [void HTTP::acceptCB()] *)
Definition acceptCB : M Sys unit :=
  maxc <- read (fun h => maxConnections (config h));;
  n <- connection_count;;
  full <- (if negb (maxc =? 0)%N && (maxc <=? n)%N then
             evict;;
             n' <- connection_count;;
             ret (maxc <=? n')%N
           else ret false);;
  if full : bool then with_acceptEvent ev_del
  else accept_connection.

(** The reactor runs the callbacks of the server one after the other;
    "each callback is wrapped in a catch-all that logs and discards", so a
    callback that throws still leaves its state behind. *)
Inductive Op : Type :=
  | OpAccept
  | OpRemove (c : Connection)
  | OpExpire.

Definition step (op : Op) : M Sys unit :=
  match op with
  | OpAccept => acceptCB
  | OpRemove c => remove c
  | OpExpire => expireCB
  end.

Fixpoint run_ops (ops : list Op) (s : Sys) : Sys :=
  match ops with
  | [] => s
  | op :: ops' => run_ops ops' (fst (step op s))
  end.

(** *** Observations on a run *)

(** The test of [expireCB] on one connection. *)
Definition expired (ttl : N) (now : time) (c : Connection) : bool :=
  time_lt (of_unsigned ttl) (time_sub now (getStartTime c)).

Definition live_connections (s : Sys) : N :=
  N.of_nat (length (connections (http s))).

(** [k] "timedout" events recorded on an optional sink, and an [unsigned]
    counter incremented [k] times. *)
Definition timedout (k : nat) (st : option (gmap string N))
    : option (gmap string N) :=
  Nat.iter k (option_map (stats_event "timedout")) st.

Definition counted (k : nat) (count : N) : N :=
  Nat.iter k (fun c => ((c + 1) mod 2 ^ 32)%N) count.

(** [s'] has the settings of [s] and no more connections than the cap of
    [s] allows. *)
Definition within_cap (s s' : Sys) : Prop :=
  config (http s') = config (http s) /\
  (live_connections s' <= maxConnections (config (http s)))%N.

(** The evict hook only drops connections. *)
Definition evict_shrinks : Prop :=
  forall cs w, (length (fst (snd (h_evict E cs w))) <= length cs)%nat.

(** The calls made between two states of one run. *)
Definition new_calls (before after : Sys) : list Call :=
  drop (length (trace before)) (trace after).

Definition is_endRequest (req : Request) (c : Call) : bool :=
  match c with
  | CEndRequest r => bool_decide (r = req)
  | _ => false
  end.

(** No call in [l] is [endRequest(req)]. *)
Definition quiet (req : Request) (l : list Call) : Prop :=
  List.filter (is_endRequest req) l = [].

Definition endRequest_calls (req : Request) (before after : Sys) : nat :=
  length (List.filter (is_endRequest req) (new_calls before after)).

(** [dispatch] invokes [endRequest(req)] exactly once. *)
Definition dispatch_ends_once (req : Request) (s : Sys) : Prop :=
  endRequest_calls req s (fst (dispatch req s)) = 1%nat.

End Server.
End HTTP.

(** ** The worker pool (ConcurrentPool.cpp) *)

Module ConcurrentPool.

(** What [Task::setException] is handed by the worker: the caught
    [cb::Exception] itself, or a string. *)
Inductive Captured : Type :=
  | CapturedException (e : Exception)
  | CapturedString (s : string).

(** Modelled from the spec: ConcurrentPool.h, which declares [Task], is not
    among the sources.  A task has a priority, a failed state and an
    "optional captured error value"; [setException] captures the error and
    marks the task failed. *)
Record Task : Type := mkTask {
  task_id : N;
  task_priority : Z;
  getFailed : bool;
  getException : option Captured;
}.

Definition setException (c : Captured) (t : Task) : Task :=
  mkTask (task_id t) (task_priority t) true (Some c).

(** Modelled from the spec: the queue type is declared in ConcurrentPool.h.
    "[ready] and [completed] are priority queues (max-heap by task
    priority; ties broken by submission order / FIFO)".  A queue is the
    list of its tasks in push order; [queue_take] is [top] followed by
    [pop]. *)
Definition queue_push (t : Task) (q : list Task) : list Task := q ++ [t].

Fixpoint queue_take (q : list Task) : option (Task * list Task) :=
  match q with
  | [] => None
  | t :: q' =>
      match queue_take q' with
      | Some (u, rest) =>
          if (task_priority t <? task_priority u)%Z
          then Some (u, t :: rest)
          else Some (t, q')
      | None => Some (t, [])
      end
  end.

Record Pool : Type := mkPool {
  size : N;
  ready : list Task;
  completed : list Task;
  activations : nat;       (* calls of [event->activate()] *)
}.

Section Pool.

(** [W]: the state of the task bodies and callbacks, of the other threads,
    and of the event base. *)
Context {W : Type}.

(** [interfere] is what the other threads (submitters and the other
    workers) do to the shared queues while this thread does not hold the
    pool's lock: inside [Condition::wait()] and inside a [SmartUnlock]
    scope. *)
Record Env : Type := mkEnv {
  t_run : Task -> W -> W * outcome unit;
  t_success : Task -> W -> W * outcome unit;
  t_error : Task -> option Captured -> W -> W * outcome unit;
  t_complete : Task -> W -> W * outcome unit;
  shouldShutdown : W -> bool;
  threadsEnabled : W -> bool;
  interfere : W -> Pool -> W * Pool;
}.

Variable E : Env.

Inductive Call : Type :=
  | CRun (t : Task)
  | CSuccess (t : Task)
  | CError (t : Task) (c : option Captured)
  | CComplete (t : Task)
  | CLog (lvl : LogLevel) (t : thrown).

Record Sys : Type := mkSys {
  pool : Pool;
  world : W;
  trace : list Call;
}.

Definition call {A} (c : Call) (f : W -> W * outcome A) : M Sys A :=
  fun s =>
    let (w', r) := f (world s) in
    (mkSys (pool s) w' (trace s ++ [c]), of_outcome r).

Definition log (lvl : LogLevel) (t : thrown) : M Sys unit :=
  fun s => (mkSys (pool s) (world s) (trace s ++ [CLog lvl t]), Ok tt).

Definition update (f : Pool -> Pool) : M Sys unit :=
  modify (fun s => mkSys (f (pool s)) (world s) (trace s)).

Definition read {A} (f : Pool -> A) : M Sys A := gets (fun s => f (pool s)).

(** Taking the lock again after it was released. *)
Definition relock : M Sys unit :=
  modify (fun s =>
            let (w', p') := interfere E (world s) (pool s) in
            mkSys p' w' (trace s)).

Definition set_ready (q : list Task) (p : Pool) : Pool :=
  mkPool (size p) q (completed p) (activations p).
Definition set_completed (q : list Task) (p : Pool) : Pool :=
  mkPool (size p) (ready p) q (activations p).
Definition activate (p : Pool) : Pool :=
  mkPool (size p) (ready p) (completed p) (S (activations p)).

(** [ConcurrentPool::ConcurrentPool(Base &base, unsigned size)]: the member
    initialisers build the pool and its event, then the body checks that
    threads are enabled. *)
Definition create (size : N) (w : W) : result Pool :=
  let p := mkPool size [] [] 0 in
  if negb (threadsEnabled E w) then
    Raise (ThrowException (mkException
      ("Cannot use Event::ConcurrentPool without threads enabled.  " +:+
       "Call Event::Base::enableThreads() before creating Event::Base.") 0))
  else Ok p.

(** [void ConcurrentPool::submit(const SmartPointer<Task> &task)] *)
Definition submit (t : Task) : M Sys unit :=
  q <- read ready;;
  update (set_ready (queue_push t q)).

(** The [try]/[catch] around [task->run()] in [ConcurrentPool::run]: the
    task as it is after the block. *)
Definition run_task (t : Task) : M Sys Task :=
  try_catch
    (call (CRun t) (t_run E t);; ret t)
    (fun thrown_value => Some (
       match thrown_value with
       | ThrowException e => ret (setException (CapturedException e) t)
       | ThrowStd what => ret (setException (CapturedString what) t)
       | ThrowOther =>
           ret (setException (CapturedString "Unknown exception") t)
       end)).

Inductive LoopExit : Type := Finished | StillRunning.

(** One pass through the body of the [while] in [ConcurrentPool::run],
    from [Condition::wait()] on.  [true]: the loop goes round again;
    [false]: [break]. *)
Definition run_body : M Sys bool :=
  relock;;                                   (* Condition::wait() *)
  stop <- gets (fun s => shouldShutdown E (world s));;
  if stop : bool then ret false
  else
    q <- read ready;;
    match queue_take q with
    | None => ret true                       (* continue *)
    | Some (task, q') =>
        update (set_ready q');;
        task' <- run_task task;;             (* lock released meanwhile *)
        relock;;
        done <- read completed;;
        update (set_completed (queue_push task' done));;
        update activate;;
        ret true
    end.

(** [void ConcurrentPool::run()], followed for at most [fuel] passes. *)
Fixpoint run (fuel : nat) : M Sys LoopExit :=
  match fuel with
  | O => ret StillRunning
  | S fuel' =>
      stop <- gets (fun s => shouldShutdown E (world s));;
      if stop : bool then ret Finished
      else
        again <- run_body;;
        if again : bool then run fuel' else ret Finished
  end.

(** Modelled from the spec: the macros of cbang/Catch.h are not among the
    sources.  [try {...} CATCH_ERROR] catches every thrown value and logs
    it at error level ("Exceptions from these callbacks are caught and
    logged but do not abort the drain"). *)
Definition CATCH_ERROR (m : M Sys unit) : M Sys unit :=
  try_catch m (fun t => Some (log LogError t)).

(** The callbacks of one dequeued task, run with the lock released. *)
Definition complete_task (task : Task) : M Sys unit :=
  CATCH_ERROR
    (if getFailed task
     then call (CError task (getException task))
               (t_error E task (getException task))
     else call (CSuccess task) (t_success E task));;
  CATCH_ERROR (call (CComplete task) (t_complete E task));;
  relock.

(** [void ConcurrentPool::complete()], followed for at most [fuel] passes
    of its [while]. *)
Fixpoint complete (fuel : nat) : M Sys LoopExit :=
  match fuel with
  | O => ret StillRunning
  | S fuel' =>
      q <- read completed;;
      match queue_take q with
      | None => ret Finished
      | Some (task, q') =>
          update (set_completed q');;
          complete_task task;;
          complete fuel'
      end
  end.

(** *** Observations on a run *)

Definition new_calls (before after : Sys) : list Call :=
  drop (length (trace before)) (trace after).

(** The calls of task callbacks among [l], log entries left out. *)
Definition is_callback (c : Call) : bool :=
  match c with
  | CSuccess _ | CError _ _ | CComplete _ => true
  | CRun _ | CLog _ _ => false
  end.

Definition callbacks (l : list Call) : list Call := List.filter is_callback l.

(** What the specification promises for one completed task: [error] with
    the captured value if it failed, [success] otherwise, then
    [complete]. *)
Definition task_callbacks (t : Task) : list Call :=
  [if getFailed t then CError t (getException t) else CSuccess t;
   CComplete t].

(** What the specification says a task holds after its [run()]: nothing
    new if [run()] returned, the exception itself for a [cb::Exception],
    the message for any other [std::exception], and the literal
    "Unknown exception" for anything else. *)
Definition captured_by (o : outcome unit) (t : Task) : Task :=
  match o with
  | Returns _ => t
  | Throws (ThrowException e) => setException (CapturedException e) t
  | Throws (ThrowStd what) => setException (CapturedString what) t
  | Throws ThrowOther => setException (CapturedString "Unknown exception") t
  end.

(** The state in which a worker that woke up in [s1] and took [task] off
    the ready queue, leaving [q'], goes round its loop again: the task
    has run, the other threads have had their turn, and the task, with what
    it captured, is on the completed queue with the event activated. *)
Definition after_task (s1 : Sys) (task : Task) (q' : list Task) : Sys :=
  let r := t_run E task (world s1) in
  let i := interfere E (fst r) (set_ready q' (pool s1)) in
  mkSys (activate
           (set_completed
              (queue_push (captured_by (snd r) task) (completed (snd i)))
              (snd i)))
        (fst i) (trace s1 ++ [CRun task]).

(** No other thread touches the queues. *)
Definition undisturbed : Prop := forall w p, interfere E w p = (w, p).

End Pool.
End ConcurrentPool.

(** ** Configuration options (Option.cpp) *)

Module Option.

Inductive type_t : Type :=
  | BOOLEAN_TYPE | STRING_TYPE | INTEGER_TYPE | DOUBLE_TYPE
  | STRINGS_TYPE | INTEGERS_TYPE | DOUBLES_TYPE
  | OTHER_TYPE (n : N).        (* an enum object holding no enumerator *)

(** [parent] is the option this one proxies, if any. *)
#[warnings="-register-all"]
Inductive Option : Type := mkOption {
  name : string;
  type : type_t;
  help : string;
  flags : N;                   (* uint32_t *)
  value : string;
  defaultValue : string;
  parent : option Option;
  action : option N;           (* the action functor, by identity *)
  constraint : option N;       (* the constraint, by identity *)
}.

Definition set_flags (f : N) (o : Option) : Option :=
  mkOption (name o) (type o) (help o) f (value o) (defaultValue o)
           (parent o) (action o) (constraint o).
Definition set_value (v : string) (o : Option) : Option :=
  mkOption (name o) (type o) (help o) (flags o) v (defaultValue o)
           (parent o) (action o) (constraint o).

(** [~x] on a [uint32_t]. *)
Definition lnot32 (x : N) : N := N.lxor x (2 ^ 32 - 1).

(** What a constraint is asked to validate. *)
Inductive Value (D : Type) : Type :=
  | VBool (b : bool)
  | VString (s : string)
  | VInteger (z : Z)
  | VDouble (d : D)
  | VStrings (l : list string)
  | VIntegers (l : list Z)
  | VDoubles (l : list D).

Arguments VBool {D} b.
Arguments VString {D} s.
Arguments VInteger {D} z.
Arguments VDouble {D} d.
Arguments VStrings {D} l.
Arguments VIntegers {D} l.
Arguments VDoubles {D} l.

Section Option.

(** The flag bits are enumerators of Option.h, which is not among the
    sources. *)
Variable DEFAULT_SET_FLAG SET_FLAG OPTIONAL_FLAG COMMAND_LINE_FLAG : N.

Definition has_flag (f : N) (o : Option) : bool :=
  negb (N.land (flags o) f =? 0)%N.

Definition isSet (o : Option) : bool := has_flag SET_FLAG o.
Definition isOptional (o : Option) : bool := has_flag OPTIONAL_FLAG o.

(** [bool Option::hasValue() const] with [hasDefault] unfolded: the two
    call each other along the chain of parents. *)
Fixpoint hasValue (o : Option) : bool :=
  isSet o ||
  (has_flag DEFAULT_SET_FLAG o ||
   match parent o with
   | Some p => hasValue p
   | None => false
   end).

(** [bool Option::hasDefault() const] *)
Definition hasDefault (o : Option) : bool :=
  has_flag DEFAULT_SET_FLAG o ||
  match parent o with
  | Some p => hasValue p
  | None => false
  end.

Definition no_value (o : Option) : thrown :=
  ThrowException (mkException
    ("Option '" +:+ name o +:+ "' has no default and is not set.") 0).

(** The body of [Option::toString], given what [getDefault()] yields. *)
Definition toString_with (o : Option) (dflt : result string) : result string :=
  if isSet o then Ok (value o)
  else if hasDefault o then dflt
  else match type o with
       | STRINGS_TYPE => Ok (value o)
       | _ => Raise (no_value o)
       end.

(** [const string &Option::getDefault() const] *)
Fixpoint getDefault (o : Option) : result string :=
  if has_flag DEFAULT_SET_FLAG o then Ok (defaultValue o)
  else match parent o with
       | Some p =>
           if hasValue p then toString_with p (getDefault p)
           else Ok (defaultValue o)
       | None => Ok (defaultValue o)
       end.

(** [const string &Option::toString() const] *)
Definition toString (o : Option) : result string :=
  toString_with o (getDefault o).

(** *** Collaborators: the parsers of cbang/String.h, the constraint, the
    action, and the text helpers used by [printHelp]. *)
Context {D W : Type}.

Record Env : Type := mkEnv {
  parseBool : string -> outcome bool;
  parseS64 : string -> outcome Z;
  parseS32 : string -> outcome Z;
  parseDouble : string -> outcome D;
  tokenize : string -> list string;
  c_validate : N -> Value D -> outcome unit;
  a_run : N -> Option -> W -> W * (Option * outcome unit);
  type_name : N -> string;                 (* an integer, streamed *)
  help_width : W -> N;                     (* OPTIONS_HELP_WIDTH, else 80 *)
  fill : string -> N -> N -> string;       (* String::fill *)
  chain : string -> Exception -> Exception (* THROWC(msg, cause) *)
}.

Variable E : Env.

Definition rbind {A B} (r : result A) (k : A -> result B) : result B :=
  match r with
  | Ok a => k a
  | Raise t => Raise t
  | NullDeref => NullDeref
  end.

Fixpoint rmap {A B} (f : A -> result B) (l : list A) : result (list B) :=
  match l with
  | [] => Ok []
  | a :: l' => rbind (f a) (fun b => rbind (rmap f l') (fun bs => Ok (b :: bs)))
  end.

(** [checkConstraint(value)]: a template of Option.h; it hands the value to
    the constraint when one is set. *)
Definition checkConstraint (o : Option) (v : Value D) : result unit :=
  match constraint o with
  | Some c => of_outcome (c_validate E c v)
  | None => Ok tt
  end.

Definition invalid_type (n : N) : thrown :=
  ThrowException (mkException ("Invalid type " +:+ type_name E n) 0).

(** [void Option::validate() const] *)
Definition validate (o : Option) : result unit :=
  match type o with
  | BOOLEAN_TYPE =>
      rbind (rbind (toString o) (fun s => of_outcome (parseBool E s)))
            (fun b => checkConstraint o (VBool b))
  | STRING_TYPE => checkConstraint o (VString (value o))
  | INTEGER_TYPE =>
      rbind (rbind (toString o) (fun s => of_outcome (parseS64 E s)))
            (fun z => checkConstraint o (VInteger z))
  | DOUBLE_TYPE =>
      rbind (rbind (toString o) (fun s => of_outcome (parseDouble E s)))
            (fun d => checkConstraint o (VDouble d))
  | STRINGS_TYPE =>
      rbind (toString o)
            (fun s => checkConstraint o (VStrings (tokenize E s)))
  | INTEGERS_TYPE =>
      rbind (rbind (toString o)
                   (fun s => rmap (fun x => of_outcome (parseS32 E x))
                                  (tokenize E s)))
            (fun l => checkConstraint o (VIntegers l))
  | DOUBLES_TYPE =>
      rbind (rbind (toString o)
                   (fun s => rmap (fun x => of_outcome (parseDouble E x))
                                  (tokenize E s)))
            (fun l => checkConstraint o (VDoubles l))
  | OTHER_TYPE n => Raise (invalid_type n)
  end.

(** [const string Option::getTypeString() const] *)
Definition getTypeString (o : Option) : result string :=
  match type o with
  | BOOLEAN_TYPE => Ok "boolean"
  | STRING_TYPE => Ok "string"
  | INTEGER_TYPE => Ok "integer"
  | DOUBLE_TYPE => Ok "double"
  | STRINGS_TYPE => Ok "string ..."
  | INTEGERS_TYPE => Ok "integer ..."
  | DOUBLES_TYPE => Ok "double ..."
  | OTHER_TYPE n => Raise (invalid_type n)
  end.

(** [ostream &Option::printHelp(ostream &stream, bool cmdLine) const] with
    [cmdLine == false], as [set] calls it: the text written to the stream. *)
Definition printHelp (o : Option) (w : W) : result string :=
  rbind (getTypeString o) (fun ty =>
  rbind (if hasDefault o
         then rbind (getDefault o) (fun d => Ok ("=" +:+ d))
         else Ok "") (fun dflt =>
  Ok ("  " +:+ name o +:+ " " +:+
      (if isOptional o then "[" else "<") +:+ ty +:+ dflt +:+
      (if isOptional o then "]" else ">") +:+
      String "010" (fill E (help o) 4 (help_width E w))))).

Inductive Call : Type :=
  | CAction (a : N)
  | CLogWarning (msg : string).

(** [warnWhenInvalid] is the static [Options::warnWhenInvalid]. *)
Record Sys : Type := mkSys {
  this : Option;
  warnWhenInvalid : bool;
  world : W;
  trace : list Call;
}.

Definition update (f : Option -> Option) : M Sys unit :=
  modify (fun s => mkSys (f (this s)) (warnWhenInvalid s) (world s) (trace s)).

Definition read {A} (f : Option -> A) : M Sys A := gets (fun s => f (this s)).

Definition lift {A} (f : Option -> result A) : M Sys A :=
  fun s => (s, f (this s)).

Definition LOG_WARNING (msg : string) : M Sys unit :=
  modify (fun s => mkSys (this s) (warnWhenInvalid s) (world s)
                         (trace s ++ [CLogWarning msg])).

(** The statement [if (hasAction()) ...] that invokes the action functor
    on this option. *)
Definition run_action : M Sys unit :=
  fun s =>
    match action (this s) with
    | Some a =>
        let '(w', (o', r)) := a_run E a (this s) (world s) in
        (mkSys o' (warnWhenInvalid s) w' (trace s ++ [CAction a]),
         of_outcome r)
    | None => (s, Ok tt)
    end.

(** [void Option::set(const string &value)] *)
Definition set (v : string) : M Sys unit :=
  o <- get;;
  if isSet (this o) && String.eqb (value (this o)) v then ret tt
  else
    let oldFlags := flags (this o) in
    let oldValue := value (this o) in
    update (fun o => set_flags (N.lor (flags o) SET_FLAG) o);;
    update (set_value v);;
    update (fun o =>
              set_flags (N.land (flags o) (lnot32 COMMAND_LINE_FLAG)) o);;
    try_catch (lift validate)
      (fun t =>
         match t with
         | ThrowException e => Some (
             update (set_flags oldFlags);;
             update (set_value oldValue);;
             errStr <- read (fun o => "Invalid value for option '" +:+ name o
                                      +:+ "'");;
             warn <- gets warnWhenInvalid;;
             if warn : bool then
               LOG_WARNING (errStr +:+ ": " +:+ message e)
             else
               text <- (fun s => (s, printHelp (this s) (world s)));;
               raise (ThrowException
                        (chain E (errStr +:+ ".  Option help:" +:+
                                  String "010" text) e)))
         | _ => None
         end);;
    run_action.

(** The option as [validate()] sees it inside [set(v)]: marked set,
    holding [v], with the command-line flag cleared. *)
Definition candidate (v : string) (o : Option) : Option :=
  set_flags (N.land (N.lor (flags o) SET_FLAG) (lnot32 COMMAND_LINE_FLAG))
            (set_value v o).

(** [set(v)] returns at once: the option is set and holds [v] already. *)
Definition unchanged_by (v : string) (o : Option) : bool :=
  isSet o && String.eqb (value o) v.

(** [void Option::reset()] *)
Definition reset : M Sys unit :=
  o <- read id;;
  if negb (isSet o) && String.eqb (value o) "" then ret tt
  else
    update (fun o => set_flags (N.land (flags o) (lnot32 SET_FLAG)) o);;
    update (set_value "");;
    run_action.

(** [void Option::append(const string &value)] *)
Definition append (v : string) : M Sys unit :=
  o <- read id;;
  if isSet o && negb (String.eqb (value o) "")
  then set (value o +:+ " " +:+ v)
  else set v.

End Option.
End Option.

(** ** Concrete collaborators

    Small closed instances on which the embedded functions can be run. *)

Module Examples.

Import HTTP.

(** Time in whole seconds; the collaborator state counts the connections
    allocated so far, which gives each new connection its own address. *)
Definition http_env (handled : outcome bool) (replied : outcome unit)
    (evicted : list (@Connection Z) -> list (@Connection Z)) : @Env Z N :=
  {| h_handleRequest := fun _ w => (w, handled);
     h_endRequest := fun _ w => (w, Returns tt);
     h_evict := fun cs w => (w, (evicted cs, Returns tt));
     r_sendError := fun _ _ w => (w, Returns tt);
     r_sendErrorException := fun _ _ w => (w, replied);
     r_sendErrorStd := fun _ _ w => (w, replied);
     r_reply := fun _ _ w => (w, replied);
     s_listen := fun _ _ w => (w, Returns 3%N);
     s_accept := fun _ w => (w, Returns (Some (mkIP 2130706433 40000, 7%N)));
     s_setBuffers := fun _ w => (w, Returns tt);
     c_new := fun peer sock _ w =>
       ((w + 1)%N,
        Returns (mkConnection w peer sock 100%Z false 0 0 None 0 0 false));
     c_acceptRequest := fun _ w => (w, Returns tt);
     timer_now := fun _ => 100%Z;
     getMessages := message;
     status_description := fun _ => "Internal Server Error";
     debug_enabled := fun _ => false |}.

Definition teapot : Exception := mkException "I'm a teapot" 418.

Definition request1 : Request := mkRequest 17 (mkIP 3232235777 51234).

Definition config1 : Config := mkConfig 2 128 8192 65536 30 30 None.

Definition localhost : IPAddress := mkIP 2130706433 8080.

(** A server just constructed, and its run state. *)
Definition http0 : @HTTP Z := init config1 0 (-1) None (mkIP 0 0).

Definition sys0 : @Sys Z N := mkSys http0 0%N [].

(** A handler that throws a 418 exception, with replies that succeed. *)
Definition env_teapot : @Env Z N :=
  http_env (Throws (ThrowException teapot)) (Returns tt) (fun cs => cs).

(** The same handler when the reply itself throws. *)
Definition env_reply_throws : @Env Z N :=
  http_env (Throws (ThrowException teapot)) (Throws ThrowOther) (fun cs => cs).

(** A handler that takes the request and whose [endRequest] throws. *)
Definition env_end_throws : @Env Z N :=
  let E := http_env (Returns true) (Returns tt) (fun cs => cs) in
  mkEnv (h_handleRequest E) (fun _ w => (w, Throws (ThrowStd "end failed")))
        (h_evict E) (r_sendError E) (r_sendErrorException E)
        (r_sendErrorStd E) (r_reply E) (s_listen E) (s_accept E)
        (s_setBuffers E) (c_new E) (c_acceptRequest E) (timer_now E)
        (getMessages E) (status_description E) (debug_enabled E).

(** A pool whose tasks throw according to their identity: task 1 throws a
    [cb::Exception], task 2 some other [std::exception], task 3 an [int];
    every other task returns.  The [success] callback of task 4 throws. *)
Definition task_outcome (t : ConcurrentPool.Task) : outcome unit :=
  match ConcurrentPool.task_id t with
  | 1%N => Throws (ThrowException (mkException "disk full" 507))
  | 2%N => Throws (ThrowStd "bad_alloc")
  | 3%N => Throws ThrowOther
  | _ => Returns tt
  end.

Definition pool_env (threads : bool) : @ConcurrentPool.Env unit :=
  {| ConcurrentPool.t_run := fun t w => (w, task_outcome t);
     ConcurrentPool.t_success := fun t w =>
       (w, if (ConcurrentPool.task_id t =? 4)%N
           then Throws (ThrowStd "success failed") else Returns tt);
     ConcurrentPool.t_error := fun _ _ w => (w, Returns tt);
     ConcurrentPool.t_complete := fun _ w => (w, Returns tt);
     ConcurrentPool.shouldShutdown := fun _ => false;
     ConcurrentPool.threadsEnabled := fun _ => threads;
     ConcurrentPool.interfere := fun w p => (w, p) |}.

Definition task (id : N) (prio : Z) : ConcurrentPool.Task :=
  ConcurrentPool.mkTask id prio false None.

Definition failed_task : ConcurrentPool.Task :=
  ConcurrentPool.setException
    (ConcurrentPool.CapturedString "Unknown exception") (task 3 0).

(** A worker about to run task 2, and a reactor about to drain two
    completed tasks, one of which failed. *)
Definition pool_ready : @ConcurrentPool.Sys unit :=
  ConcurrentPool.mkSys
    (ConcurrentPool.mkPool 2 [task 4 0; task 2 5] [] 0) tt [].

Definition pool_completed : @ConcurrentPool.Sys unit :=
  ConcurrentPool.mkSys
    (ConcurrentPool.mkPool 2 [] [task 4 0; failed_task] 0) tt [].

(** A hook that evicts nobody, and one that drops the oldest connection. *)
Definition env_no_evict : @Env Z N :=
  http_env (Returns true) (Returns tt) (fun cs => cs).

Definition env_evict_oldest : @Env Z N :=
  http_env (Returns true) (Returns tt) (fun cs => tail cs).

(** The server once bound to [localhost]. *)
Definition sys_bound : @Sys Z N := fst (bind env_no_evict localhost sys0).

Definition connection (ptr : N) (start : Z) : @Connection Z :=
  mkConnection ptr (mkIP 3232235777 50000) (10 + ptr) start true 8192 65536
               None 30 30 false.

Definition accept_event : Event :=
  ev_add None
    (newEvent AcceptCB (Some 3%N)
       [EVENT_READ; EVENT_PERSIST; EVENT_NO_SELF_REF]).

(** A bound server at its cap of two connections. *)
Definition sys_full : @Sys Z N :=
  mkSys (mkHTTP config1 0 (-1) None None (Some accept_event) (Some 3%N)
           localhost [connection 0 80; connection 1 90])
        2%N [].

(** A server with a TTL of 10 seconds and a statistics sink, holding
    connections aged 20, 10 and 5 seconds at time 100. *)
Definition sys_aged : @Sys Z N :=
  mkSys (mkHTTP config1 10 (-1) (Some ∅) None (Some accept_event) (Some 3%N)
           localhost [connection 0 80; connection 1 90; connection 2 95])
        3%N [].

(** Options: the flag bits, parsers that know a few literals, and an
    integer option set to "4" from the command line. *)
Definition DEFAULT_SET_FLAG : N := 1.
Definition SET_FLAG : N := 2.
Definition OPTIONAL_FLAG : N := 4.
Definition COMMAND_LINE_FLAG : N := 16.

Definition bad (what : string) : thrown :=
  ThrowException (mkException what 0).

Definition option_env : @Option.Env Z unit :=
  {| Option.parseBool := fun s =>
       if String.eqb s "true" then Returns true
       else if String.eqb s "false" then Returns false
       else Throws (bad "Invalid bool");
     Option.parseS64 := fun s =>
       if String.eqb s "4" then Returns 4%Z
       else if String.eqb s "8" then Returns 8%Z
       else Throws (bad "Invalid integer");
     Option.parseS32 := fun s =>
       if String.eqb s "4" then Returns 4%Z
       else Throws (bad "Invalid integer");
     Option.parseDouble := fun s =>
       if String.eqb s "4" then Returns 4%Z
       else Throws (bad "Invalid double");
     Option.tokenize := fun s => [s];
     Option.c_validate := fun _ _ => Returns tt;
     Option.a_run := fun _ o w => (w, (o, Returns tt));
     Option.type_name := fun _ => "?";
     Option.help_width := fun _ => 80%N;
     Option.fill := fun text _ _ => text;
     Option.chain := fun msg cause => mkException msg (code cause) |}.

Definition threads_option : Option.Option :=
  Option.mkOption "threads" Option.INTEGER_TYPE "Number of worker threads"
                  18 "4" "" None (Some 0%N) None.

Definition option_sys : @Option.Sys unit :=
  Option.mkSys threads_option false tt [].

End Examples.

(** ** Further observations on the HTTP front *)

Module HTTPObs.
Import HTTP.

Section Obs.

Context {time : Type}.

(** The calls that send something to the client. *)
Definition is_reply (c : @Call time) : bool :=
  match c with
  | CSendError _ _ | CSendErrorException _ _ | CSendErrorStd _ _
  | CReply _ _ => true
  | _ => false
  end.

Definition replies (l : list (@Call time)) : list (@Call time) :=
  List.filter is_reply l.

(** The reply the catch clauses of [dispatch] make for a thrown value. *)
Definition reply_for (req : Request) (t : thrown) : @Call time :=
  match t with
  | ThrowException e =>
      if (400 <=? code e)%Z && (code e <? 600)%Z
      then CReply req (code e)
      else CSendErrorException req e
  | ThrowStd what => CSendErrorStd req what
  | ThrowOther => CSendError req HTTP_INTERNAL_SERVER_ERROR
  end.

Definition is_evict (c : @Call time) : bool :=
  match c with CEvict _ => true | _ => false end.

Definition is_log (c : @Call time) : bool :=
  match c with CLog _ _ => true | _ => false end.

(** The calls into collaborators, log entries left out. *)
Definition outside_calls (l : list (@Call time)) : list (@Call time) :=
  List.filter (fun c => negb (is_log c)) l.

(** The statements of [dispatch] that follow its [try]/[catch], given how
    the [try]/[catch] was left: [Some b] by [return b], [None] by falling
    through. *)
Definition after_try {W : Type} (E : @Env time W) (req : Request)
    (r : option bool) : M (@Sys time W) bool :=
  match r with
  | Some b => ret b
  | None =>
      call (CEndRequest req) (h_endRequest E req);;
      ret false
  end.

(** The reply a catch clause of [dispatch] makes for a thrown value, as
    the call on the request it is. *)
Definition catch_reply {W : Type} (E : @Env time W) (req : Request)
    (t : thrown) : W -> W * outcome unit :=
  match t with
  | ThrowException e =>
      if (400 <=? code e)%Z && (code e <? 600)%Z
      then r_reply E req (code e)
      else r_sendErrorException E req e
  | ThrowStd what => r_sendErrorStd E req what
  | ThrowOther => r_sendError E req HTTP_INTERNAL_SERVER_ERROR
  end.

(** The calls of [endRequest] that follow a catch clause entered for [t]
    in the world [w]: the trailing one, reached if the reply returns. *)
Definition caught_count {W : Type} (E : @Env time W) (req : Request)
    (t : thrown) (w : W) : nat :=
  match snd (catch_reply E req t w) with
  | Returns _ => 1
  | Throws _ => 0
  end.

(** The number of [endRequest] calls of one [dispatch], path by path, read
    off what the handler and the request do when called. *)
Definition endRequest_count {W : Type} (E : @Env time W) (req : Request)
    (w : W) : nat :=
  match h_handleRequest E req w with
  | (w1, Returns true) =>
      match h_endRequest E req w1 with
      | (_, Returns _) => 1
      | (w2, Throws t) => 1 + caught_count E req t w2
      end
  | (w1, Returns false) =>
      match r_sendError E req HTTP_NOT_FOUND w1 with
      | (_, Returns _) => 1
      | (w2, Throws t) => caught_count E req t w2
      end
  | (w1, Throws t) => caught_count E req t w1
  end.

(** The accept event [bind] makes for descriptor [fd] on a server of the
    given priority, once registered. *)
Definition listener (fd : N) (prio : Z) : Event :=
  mkEvent AcceptCB (Some fd) [EVENT_READ; EVENT_PERSIST; EVENT_NO_SELF_REF]
          (if (0 <=? prio)%Z then Some (timer_priority prio) else None)
          true None.

(** The connection [acceptCB] enters for a connection object [con] just
    constructed, on a server [h]. *)
Definition configured (h : @HTTP time) (con : @Connection time)
    : @Connection time :=
  con_configure (maxHeaderSize (config h)) (maxBodySize (config h))
    (priority h) (readTimeout (config h)) (writeTimeout (config h))
    (isSet (stats h)) con.

End Obs.
End HTTPObs.

(** ** Further observations on the worker pool *)

Module PoolObs.
Import ConcurrentPool.

(** [unsigned ConcurrentPool::getNumReady() const] and
    [unsigned ConcurrentPool::getNumCompleted() const] *)
Definition getNumReady (p : Pool) : nat := length (ready p).
Definition getNumCompleted (p : Pool) : nat := length (completed p).

(** The tasks the pool holds, by identity: those waiting to run and those
    waiting for their callbacks. *)
Definition held (p : Pool) : list N :=
  map task_id (ready p ++ completed p).

(** The pool is never told to shut down. *)
Definition never_shutdown {W : Type} (E : @Env W) : Prop :=
  forall w, shouldShutdown E w = false.

End PoolObs.

(** ** More of Option.cpp *)

Module OptionOps.
Import Option.

Definition set_defaultValue (d : string) (o : Option) : Option :=
  mkOption (name o) (type o) (help o) (flags o) (value o) d
           (parent o) (action o) (constraint o).

(** [arg.find('=')] with [arg.substr(0, pos)] and [arg.substr(pos + 1)]:
    the text before and after the first '=', if there is one. *)
Fixpoint split_equals (arg : string) : option (string * string) :=
  match arg with
  | EmptyString => None
  | String c rest =>
      if Ascii.eqb c "=" then Some (EmptyString, rest)
      else match split_equals rest with
           | Some (name, value) => Some (String c name, value)
           | None => None
           end
  end.

(** [args[i][0] != '-']; the first character of an empty string is the
    terminating zero. *)
Definition starts_with_dash (arg : string) : bool :=
  match arg with
  | String c _ => Ascii.eqb c "-"
  | EmptyString => false
  end.

(** The loop of [Option::set(const strings_t &values)]: [n] passes from
    index [i], appending to [value]. *)
Fixpoint join_from (values : list string) (i n : nat) (value : string)
    : string :=
  match n with
  | O => value
  | S n' =>
      let value := if (i =? 1)%nat then value else (value +:+ " ") in
      join_from values (S i) n' (value +:+ nth i values "")
  end.

Section Option.

Variable DEFAULT_SET_FLAG SET_FLAG OPTIONAL_FLAG COMMAND_LINE_FLAG : N.
Context {D W : Type}.
Variable E : @Env D W.

(** [String(bool)] of cbang/String.h. *)
Variable String_bool : bool -> string.

Abbreviation Sys := (@Sys W).
Abbreviation set' :=
  (set DEFAULT_SET_FLAG SET_FLAG OPTIONAL_FLAG COMMAND_LINE_FLAG E).

(** The proxy constructor [Option::Option(const SmartPointer<Option>
    &parent)]: name, type, help and action are the parent's, the flags are
    the parent's without the two set flags; value, default value and
    constraint start empty. *)
Definition proxy (p : Option) : Option :=
  mkOption (name p) (type p) (help p)
           (N.land (flags p) (lnot32 (N.lor SET_FLAG DEFAULT_SET_FLAG)))
           "" "" (Some p) (action p) None.

(** The option [reset] leaves for its action. *)
Definition cleared (o : Option) : Option :=
  set_value "" (set_flags (N.land (flags o) (lnot32 SET_FLAG)) o).

(** [void Option::unset()] *)
Definition unset : M Sys unit :=
  update (fun o =>
            set_flags (N.land (flags o) (lnot32 DEFAULT_SET_FLAG)) o);;
  update (set_defaultValue "");;
  reset SET_FLAG E.

(** [void Option::set(bool value)] *)
Definition set_bool (b : bool) : M Sys unit := set' (String_bool b).

(** [void Option::set(const strings_t &values)]: the loop runs over the
    indices from 1 up to the size. *)
Definition set_strings (values : list string) : M Sys unit :=
  set' (join_from values 1 (length values - 1) "").

(** [bool Option::toBoolean() const], [int64_t Option::toInteger() const] *)
Definition toBoolean (o : Option) : result bool :=
  rbind (toString DEFAULT_SET_FLAG SET_FLAG o)
        (fun s => of_outcome (parseBool E s)).

Definition toInteger (o : Option) : result Z :=
  rbind (toString DEFAULT_SET_FLAG SET_FLAG o)
        (fun s => of_outcome (parseS64 E s)).

(** [ostream &Option::printHelp(ostream &stream, bool cmdLine) const].
    [shortName] is a member of the option that the record above does not
    carry; it is a parameter here ([None] for the zero character). *)
Definition printHelp_stream (shortName : option ascii) (cmdLine : bool)
    (o : Option) (w : W) : result string :=
  let short := match shortName with
               | Some c => if cmdLine then "-" +:+ String c "" else ""
               | None => ""
               end in
  let long :=
    if String.eqb (name o) "" then ""
    else (match shortName with
          | Some _ => if cmdLine then "|" else ""
          | None => ""
          end +:+ (if cmdLine then "--" else "") +:+ name o) in
  rbind (if negb (match type o with BOOLEAN_TYPE => true | _ => false end)
            || negb cmdLine
         then
           rbind (getTypeString E o) (fun ty =>
           rbind (if hasDefault DEFAULT_SET_FLAG SET_FLAG o
                  then rbind (getDefault DEFAULT_SET_FLAG SET_FLAG o)
                             (fun d => Ok ("=" +:+ d))
                  else Ok "") (fun dflt =>
           Ok (" " +:+ (if isOptional OPTIONAL_FLAG o then "[" else "<")
               +:+ ty +:+ dflt +:+
               (if isOptional OPTIONAL_FLAG o then "]" else ">"))))
         else Ok "") (fun arg =>
  Ok ("  " +:+ short +:+ long +:+ arg +:+
      String "010" (fill E (help o) (if cmdLine then 6 else 4)
                         (help_width E w)))).

(** [void Option::parse(unsigned &i, const vector<string> &args)], on
    [i < args.size()].  The result is the new [i]; [None] stands for an
    index of [args] out of range, which the C++ leaves undefined. *)
Definition parse (shortName : option ascii) (i : nat) (args : list string)
    : M Sys (option nat) :=
  match nth_error args i with
  | None => ret None
  | Some arg =>
      let i := S i in
      match split_equals arg with
      | Some (_, value) => set' value;; ret (Some i)
      | None =>
          o <- read id;;
          match type o with
          | BOOLEAN_TYPE => set_bool true;; ret (Some i)
          | _ =>
              if negb (isOptional OPTIONAL_FLAG o) then
                if (i =? length args)%nat then
                  text <- (fun s => (s, printHelp_stream shortName true
                                          (this s) (world s)));;
                  LOG_WARNING ("Missing required argument for option:" +:+
                               String "010" text);;
                  ret (Some i)
                else
                  match nth_error args i with
                  | Some a => set' a;; ret (Some (S i))
                  | None => ret None
                  end
              else if (i <? length args)%nat then
                match nth_error args i with
                | Some a =>
                    if negb (starts_with_dash a)
                    then set' a;; ret (Some (S i))
                    else run_action E;; ret (Some i)
                | None => ret None
                end
              else run_action E;; ret (Some i)
          end
      end
  end.

End Option.
End OptionOps.

(** ** Further scenarios *)

Module Scenarios.
Import Examples.

(** A socket layer that cannot listen, and one that has no socket to
    hand over. *)
Definition env_listen_fails : @HTTP.Env Z N :=
  let E := env_no_evict in
  HTTP.mkEnv (HTTP.h_handleRequest E) (HTTP.h_endRequest E) (HTTP.h_evict E)
    (HTTP.r_sendError E) (HTTP.r_sendErrorException E)
    (HTTP.r_sendErrorStd E) (HTTP.r_reply E)
    (fun _ _ w => (w, Throws (ThrowStd "Address already in use")))
    (HTTP.s_accept E) (HTTP.s_setBuffers E) (HTTP.c_new E)
    (HTTP.c_acceptRequest E) (HTTP.timer_now E) (HTTP.getMessages E)
    (HTTP.status_description E) (HTTP.debug_enabled E).

Definition env_no_socket : @HTTP.Env Z N :=
  let E := env_no_evict in
  HTTP.mkEnv (HTTP.h_handleRequest E) (HTTP.h_endRequest E) (HTTP.h_evict E)
    (HTTP.r_sendError E) (HTTP.r_sendErrorException E)
    (HTTP.r_sendErrorStd E) (HTTP.r_reply E) (HTTP.s_listen E)
    (fun _ w => (w, Returns None))
    (HTTP.s_setBuffers E) (HTTP.c_new E)
    (HTTP.c_acceptRequest E) (HTTP.timer_now E) (HTTP.getMessages E)
    (HTTP.status_description E) (HTTP.debug_enabled E).

(** A bound server without a cap, holding three connections. *)
Definition sys_uncapped : @HTTP.Sys Z N :=
  HTTP.mkSys
    (HTTP.mkHTTP (HTTP.mkConfig 0 128 8192 65536 30 30 None) 0 (-1) None
       None (Some accept_event) (Some 3%N) localhost
       [connection 0 80; connection 1 90; connection 2 95])
    3%N [].

(** A bound server below its cap of two, holding one connection. *)
Definition sys_one : @HTTP.Sys Z N :=
  HTTP.mkSys
    (HTTP.mkHTTP config1 0 (-1) None None (Some accept_event) (Some 3%N)
       localhost [connection 0 80])
    1%N [].

(** The server just constructed, once its TTL has been set to 30. *)
Definition sys_ttl : @HTTP.Sys Z N := fst (HTTP.setMaxConnectionTTL 30 sys0).

(** A pool whose shutdown flag is the state of the outside world, set by
    another thread while the worker waits. *)
Definition pool_env_stopping : @ConcurrentPool.Env bool :=
  {| ConcurrentPool.t_run := fun t w => (w, task_outcome t);
     ConcurrentPool.t_success := fun _ w => (w, Returns tt);
     ConcurrentPool.t_error := fun _ _ w => (w, Returns tt);
     ConcurrentPool.t_complete := fun _ w => (w, Returns tt);
     ConcurrentPool.shouldShutdown := fun w => w;
     ConcurrentPool.threadsEnabled := fun _ => true;
     ConcurrentPool.interfere := fun _ p => (true, p) |}.

Definition pool_stopping (stop : bool) : @ConcurrentPool.Sys bool :=
  ConcurrentPool.mkSys
    (ConcurrentPool.mkPool 2 [task 4 0; task 2 5] [] 0) stop [].

(** A pool with nothing to do. *)
Definition pool_idle : @ConcurrentPool.Sys unit :=
  ConcurrentPool.mkSys (ConcurrentPool.mkPool 2 [] [] 0) tt [].

(** [String(bool)] *)
Definition String_bool (b : bool) : string :=
  if b then "true" else "false".

(** Constraints that throw something other than a [cb::Exception]. *)
Definition option_env_std : @Option.Env Z unit :=
  let E := option_env in
  Option.mkEnv (Option.parseBool E) (Option.parseS64 E) (Option.parseS32 E)
    (Option.parseDouble E) (Option.tokenize E)
    (fun _ _ => Throws (ThrowStd "bad_cast"))
    (Option.a_run E) (Option.type_name E) (Option.help_width E)
    (Option.fill E) (Option.chain E).

(** A text option with a constraint; one that is set and has a default;
    one that is fresh. *)
Definition checked_option : Option.Option :=
  Option.mkOption "user" Option.STRING_TYPE "Run as this user"
                  0 "" "" None None (Some 0%N).

Definition named_option : Option.Option :=
  Option.mkOption "user" Option.STRING_TYPE "Run as this user"
                  3 "alice" "nobody" None None None.

Definition fresh_option : Option.Option :=
  Option.mkOption "include" Option.STRING_TYPE "Files to include"
                  0 "" "" None None None.

Definition sys_of (o : Option.Option) (warn : bool) : @Option.Sys unit :=
  Option.mkSys o warn tt [].

End Scenarios.

(** * Properties *)

(** ** The HTTP server front *)

Module HTTPSpec.
Import HTTP.

Ltac calls_simpl :=
  unfold new_calls; cbn [trace]; rewrite <- ?app_assoc;
  rewrite drop_app_length; cbn.

(** Case analysis on the next call into a collaborator. *)
Ltac oracle :=
  match goal with
  | |- context [let (_, _) := ?f in _] =>
      let w := fresh "w" in
      let r := fresh "r" in
      let Hc := fresh "Hc" in
      destruct f as [w r] eqn:Hc; destruct r as [[]|?]; cbn
  end.

Section Dispatch.

Context {time W : Type}.
Variable E : @Env time W.

Abbreviation Sys := (@Sys time W).
Abbreviation Call := (@Call time).

Lemma new_calls_app (s s' : Sys) (l : list Call) :
  trace s' = trace s ++ l -> new_calls s s' = l.
Proof.
  intros H. unfold new_calls. rewrite H. now rewrite drop_app_length.
Qed.

(** C5: when [handleRequest] throws a [cb::Exception] whose code [c] lies
    in [400, 600), [dispatch] logs a warning made of "REQ", the request ID,
    the client IP and the messages of the exception, then replies with
    status [c]; no error response is sent, and nothing else happens except
    the final [endRequest] once the reply has returned. *)
Theorem dispatch_replies_with_code (req : Request) (s : Sys) (e : Exception)
    (w1 : W) :
  h_handleRequest E req (world s) = (w1, Throws (ThrowException e)) ->
  (400 <= code e < 600)%Z ->
  exists rest,
    new_calls s (fst (dispatch E req s)) =
      [CHandleRequest req;
       CLog LogWarning
         [PStr "REQ"; PNum (getID req); PChr ":"; PAddr (getClientIP req);
          PChr ":"; PStr (getMessages E e)];
       CReply req (code e)] ++ rest /\
    (rest = [] \/ rest = [CEndRequest req]).
Proof.
  intros Hh [Hlo Hhi].
  unfold dispatch, dispatch_try, Eff.bind at 1, try_catch.
  unfold Eff.bind at 1, call at 1. rewrite Hh. cbn.
  apply Z.leb_le in Hlo. apply Z.ltb_lt in Hhi. rewrite Hlo, Hhi. cbn.
  unfold Eff.bind, log, call, ret. cbn.
  destruct (r_reply E req (code e) w1) as [w2 [[]|t]]; cbn.
  - destruct (h_endRequest E req w2) as [w3 [[]|t]]; cbn;
      (exists [CEndRequest req]; split; [calls_simpl; reflexivity | now right]).
  - exists []. split; [calls_simpl; reflexivity | now left].
Qed.

End Dispatch.

Section Expiry.

Context {time W : Type}.
Variable time_sub : time -> time -> time.
Variable time_lt : time -> time -> bool.
Variable of_unsigned : N -> time.
Variable E : @Env time W.

Abbreviation expired' := (expired time_sub time_lt of_unsigned).
Abbreviation expire_loop' := (@expire_loop time time_sub time_lt of_unsigned W).

Lemma timedout_S (k : nat) (st : option (gmap string N)) :
  timedout k (option_map (stats_event "timedout") st) = timedout (S k) st.
Proof. unfold timedout. apply Nat.iter_swap. Qed.

Lemma counted_S (k : nat) (c : N) :
  counted k ((c + 1) mod 2 ^ 32)%N = counted (S k) c.
Proof.
  unfold counted.
  apply (Nat.iter_swap k N (fun c => ((c + 1) mod 2 ^ 32)%N)).
Qed.

(** The scan, on a state spelled out field by field. *)
Lemma expire_loop_spec cfg ttl prio ee ae so ba w tr now :
  forall rest kept count st,
    expire_loop' now kept rest count
      (mkSys (mkHTTP cfg ttl prio st ee ae so ba (kept ++ rest)) w tr) =
    (let gone := List.filter (expired' ttl now) rest in
     (mkSys (mkHTTP cfg ttl prio (timedout (length gone) st) ee ae so ba
               (kept ++ List.filter (fun c => negb (expired' ttl now c)) rest))
            w tr,
      Ok (counted (length gone) count))).
Proof.
  induction rest as [|c rest IH]; intros kept count st.
  - cbn. now rewrite app_nil_r.
  - cbn [expire_loop List.filter]. unfold Eff.bind at 1, read at 1, gets.
    cbn [http maxConnectionTTL fst snd].
    unfold expired at 1 2 4. fold (expired' ttl now c).
    destruct (expired' ttl now c) eqn:Hc; cbn [negb length].
    + rewrite <- timedout_S, <- counted_S.
      unfold Eff.bind at 1, update at 1, modify. cbn [http set_connections].
      unfold Eff.bind at 1, read at 1, gets. cbn [http stats].
      destruct st as [st|];
        unfold Eff.bind at 1, when, update, modify, ret;
        cbn [isSet http set_stats option_map]; cbn -[timedout counted];
        apply IH.
    + replace (kept ++ c :: rest) with ((kept ++ [c]) ++ rest)
        by now rewrite <- app_assoc.
      rewrite IH. cbn zeta. now rewrite <- app_assoc.
Qed.

Lemma stats_count_event (name : string) (st : gmap string N) :
  stats_count name (stats_event name st) = (stats_count name st + 1)%N.
Proof.
  unfold stats_count, stats_event. now rewrite lookup_insert_eq.
Qed.

Lemma stats_count_other (name other : string) (st : gmap string N) :
  other <> name ->
  stats_count other (stats_event name st) = stats_count other st.
Proof.
  intros Hne. unfold stats_count, stats_event.
  now rewrite lookup_insert_ne by congruence.
Qed.

Lemma timedout_count (k : nat) (st : gmap string N) :
  exists st', timedout k (Some st) = Some st' /\
    stats_count "timedout" st' = (stats_count "timedout" st + N.of_nat k)%N /\
    forall name, name <> "timedout" ->
      stats_count name st' = stats_count name st.
Proof.
  induction k as [|k (st' & Hst & Hcount & Hother)].
  - exists st. split; [reflexivity|]. split; [cbn; lia | reflexivity].
  - exists (stats_event "timedout" st'). split; [|split].
    + unfold timedout in *. now rewrite Nat.iter_succ, Hst.
    + rewrite stats_count_event, Hcount. lia.
    + intros name Hne. now rewrite stats_count_other, Hother.
Qed.

Lemma timedout_None (k : nat) : timedout k None = None.
Proof.
  induction k as [|k IH]; [reflexivity|].
  unfold timedout in *. now rewrite Nat.iter_succ, IH.
Qed.

Lemma filter_sublist {A} (p : A -> bool) (l : list A) :
  sublist (List.filter p l) l.
Proof.
  induction l as [|a l IH]; cbn.
  - constructor.
  - destruct (p a); now constructor.
Qed.

(** What [expireCB] leaves behind. *)
Lemma expireCB_run cfg ttl prio st ee ae so ba cs w tr :
  let now := timer_now E w in
  let gone := List.filter (expired' ttl now) cs in
  exists tr',
    expireCB time_sub time_lt of_unsigned E
      (mkSys (mkHTTP cfg ttl prio st ee ae so ba cs) w tr) =
    (mkSys (mkHTTP cfg ttl prio (timedout (length gone) st) ee ae so ba
              (List.filter (fun c => negb (expired' ttl now c)) cs))
           w tr', Ok tt).
Proof.
  intros now gone.
  unfold expireCB, Eff.bind at 1, gets. cbn [world].
  unfold Eff.bind at 1, read at 1, gets. cbn [http connections].
  unfold Eff.bind at 1.
  pose proof (@expire_loop_spec cfg ttl prio ee ae so ba w tr
                (timer_now E w) cs [] 0%N st) as Hloop.
  cbn [app] in Hloop. rewrite Hloop. cbn zeta.
  unfold LOG_DEBUG, when, log, ret.
  destruct (debug_enabled E 4); eexists; reflexivity.
Qed.

(** C6: with [maxConnectionTTL = T > 0], [expireCB] removes exactly the
    connections whose age [now - startTime] exceeds [T] and keeps the others
    in their order; a connection aged exactly [T] stays; the "timedout"
    counter of the statistics sink, when there is one, grows by the number
    of connections removed. *)
Theorem expireCB_removes_expired (s : Sys) :
  (forall x, time_lt x x = false) ->
  (0 < maxConnectionTTL (http s))%N ->
  let T := maxConnectionTTL (http s) in
  let now := timer_now E (world s) in
  let cs := connections (http s) in
  let gone := List.filter (expired' T now) cs in
  let s' := fst (expireCB time_sub time_lt of_unsigned E s) in
  snd (expireCB time_sub time_lt of_unsigned E s) = Ok tt /\
  connections (http s') = List.filter (fun c => negb (expired' T now c)) cs /\
  sublist (connections (http s')) cs /\
  (forall c, In c cs ->
     time_sub now (getStartTime c) = of_unsigned T ->
     In c (connections (http s'))) /\
  match stats (http s) with
  | Some st =>
      exists st', stats (http s') = Some st' /\
        stats_count "timedout" st' =
          (stats_count "timedout" st + N.of_nat (length gone))%N /\
        forall name, name <> "timedout" ->
          stats_count name st' = stats_count name st
  | None => stats (http s') = None
  end.
Proof.
  intros Hirr _ T now cs gone s'. subst T now cs gone s'.
  destruct s as [[cfg ttl prio st ee ae so ba cs] w tr].
  destruct (expireCB_run cfg ttl prio st ee ae so ba cs w tr) as (tr' & ->).
  cbn [fst snd http world maxConnectionTTL connections stats].
  split; [reflexivity|]. split; [reflexivity|].
  split; [apply filter_sublist|]. split.
  - intros c Hin Hage. apply filter_In. split; [assumption|].
    unfold expired. now rewrite Hage, Hirr.
  - destruct st as [st|].
    + destruct (timedout_count
                  (length (List.filter (expired' ttl (timer_now E w)) cs)) st)
        as (st' & Hst & Hcount & Hother).
      exists st'. repeat split; assumption.
    + apply timedout_None.
Qed.

End Expiry.

Section Timer.

Context {time W : Type}.

Abbreviation Sys := (@Sys time W).

Lemma ev_fire_persistent (e : Event) (n : nat) :
  ev_persistent e = true -> Nat.iter n ev_fire e = e.
Proof.
  intros Hp. induction n as [|n IH]; [reflexivity|].
  rewrite Nat.iter_succ, IH. unfold ev_fire. now rewrite Hp.
Qed.

(** C7: [setMaxConnectionTTL(x)] with [x] nonzero stores [x], creates the
    expire event when there is none (and keeps the existing one otherwise),
    gives it the priority [priority - 1] when [priority > 0] and [priority]
    otherwise, and registers it with a delay of 60 seconds.  The event it
    creates is persistent: however often it fires it stays registered with
    that delay, until [setMaxConnectionTTL(0)] deregisters it. *)
Theorem setMaxConnectionTTL_schedules (x : N) (s : Sys) :
  x <> 0%N ->
  exists ev,
    setMaxConnectionTTL x s =
      (mkSys (set_expireEvent (Some ev) (set_maxConnectionTTL x (http s)))
             (world s) (trace s), Ok tt) /\
    ev_priority ev =
      Some (if (0 <? priority (http s))%Z
            then (priority (http s) - 1)%Z else priority (http s)) /\
    ev_pending ev = true /\
    ev_timeout ev = Some 60%N /\
    match expireEvent (http s) with
    | None => ev_callback ev = ExpireCB /\ ev_persistent ev = true
    | Some old =>
        ev_callback ev = ev_callback old /\ ev_flags ev = ev_flags old /\
        ev_fd ev = ev_fd old
    end /\
    (ev_persistent ev = true ->
     forall n, Nat.iter n ev_fire ev = ev) /\
    (let s' := fst (setMaxConnectionTTL x s) in
     snd (setMaxConnectionTTL 0 s') = Ok tt /\
     expireEvent (http (fst (setMaxConnectionTTL 0 s'))) = Some (ev_del ev)).
Proof.
  intros Hx. destruct s as [[cfg ttl prio st ee ae so ba cs] w tr].
  destruct x as [|p]; [congruence|].
  destruct ee as [old|].
  - exists (ev_add (Some 60%N) (ev_setPriority (timer_priority prio) old)).
    repeat split; try reflexivity.
    intros Hp n. now apply ev_fire_persistent.
  - exists (ev_add (Some 60%N)
              (ev_setPriority (timer_priority prio)
                 (newEvent ExpireCB None default_flags))).
    repeat split; try reflexivity.
    intros Hp n. now apply ev_fire_persistent.
Qed.

(** On a server whose expire event was never created, the zero branch
    applies [->] to the unset handle. *)
Lemma setMaxConnectionTTL_zero_unset (s : Sys) :
  expireEvent (http s) = None ->
  snd (setMaxConnectionTTL 0 s) = NullDeref.
Proof.
  intros Hnone. destruct s as [[cfg ttl prio st ee ae so ba cs] w tr].
  cbn in Hnone. subst ee. reflexivity.
Qed.

End Timer.

Section Accept.

Context {time W : Type}.
Variable time_sub : time -> time -> time.
Variable time_lt : time -> time -> bool.
Variable of_unsigned : N -> time.
Variable E : @Env time W.

Abbreviation Sys := (@Sys time W).
Abbreviation cap s := (maxConnections (config (http s))).

(** Accepting adds at most one connection and leaves the settings alone. *)
Lemma accept_connection_grows (s : Sys) :
  let s' := fst (accept_connection E s) in
  config (http s') = config (http s) /\
  (length (connections (http s')) <= S (length (connections (http s))))%nat.
Proof.
  destruct s as [[cfg ttl prio st ee ae so ba cs] w tr].
  unfold accept_connection, Eff.bind, read, gets, deref, call, log, ret,
    null_deref, LOG_DEBUG, when, update, modify; cbn.
  destruct so as [fd|]; cbn; [|split; [reflexivity | lia]].
  destruct (s_accept E fd w) as [w1 [[[peer sock]|]|t]]; cbn;
    try (split; [reflexivity | lia]).
  destruct (debug_enabled E 4); cbn;
    (destruct (s_setBuffers E sock w1) as [w2 [[]|t]]; cbn;
       [|split; [reflexivity | lia]]);
    (destruct (c_new E peer sock (sslCtx cfg) w2) as [w3 [con|t]]; cbn;
       [|split; [reflexivity | lia]]);
    match goal with |- context [c_acceptRequest E ?c ?w] =>
      destruct (c_acceptRequest E c w) as [w4 [[]|t]] end; cbn;
    (split; [reflexivity | rewrite length_app; cbn; lia]).
Qed.

Lemma accept_connection_trace (s : Sys) :
  exists l, trace (fst (accept_connection E s)) = trace s ++ l.
Proof.
  destruct s as [[cfg ttl prio st ee ae so ba cs] w tr].
  unfold accept_connection, Eff.bind, read, gets, deref, call, log, ret,
    null_deref, LOG_DEBUG, when, update, modify; cbn.
  destruct so as [fd|]; cbn; [|exists []; now rewrite app_nil_r].
  destruct (s_accept E fd w) as [w1 [[[peer sock]|]|t]]; cbn;
    try (eexists; rewrite <- ?app_assoc; reflexivity).
  destruct (debug_enabled E 4); cbn;
    (destruct (s_setBuffers E sock w1) as [w2 [[]|t]]; cbn;
       [|eexists; rewrite <- ?app_assoc; reflexivity]);
    (destruct (c_new E peer sock (sslCtx cfg) w2) as [w3 [con|t]]; cbn;
       [|eexists; rewrite <- ?app_assoc; reflexivity]);
    match goal with |- context [c_acceptRequest E ?c ?w] =>
      destruct (c_acceptRequest E c w) as [w4 [[]|t]] end; cbn;
    eexists; rewrite <- ?app_assoc; reflexivity.
Qed.

(** At the cap, the evict hook is the first thing [acceptCB] calls. *)
Lemma acceptCB_evicts_first (s : Sys) :
  cap s <> 0%N -> (cap s <= live_connections s)%N ->
  exists rest,
    new_calls s (fst (acceptCB E s)) = CEvict (connections (http s)) :: rest.
Proof.
  intros Hcap Hfull. unfold live_connections in Hfull.
  destruct s as [[cfg ttl prio st ee ae so ba cs] w tr]. cbn in Hcap, Hfull.
  unfold acceptCB, connection_count, Eff.bind at 1, read at 1, gets. cbn.
  unfold Eff.bind at 1, read at 1, gets. cbn.
  apply N.eqb_neq in Hcap. apply N.leb_le in Hfull. rewrite Hcap, Hfull. cbn.
  unfold Eff.bind at 1. unfold Eff.bind at 1, evict. cbn.
  destruct (h_evict E cs w) as [w1 [cs1 [[]|t]]]; cbn.
  - unfold Eff.bind, read, gets, ret. cbn.
    destruct (maxConnections cfg <=? N.of_nat (length cs1))%N.
    + unfold with_acceptEvent, Eff.bind, read, gets, deref, update, modify,
        ret, null_deref. cbn.
      destruct ae; cbn; exists []; calls_simpl; reflexivity.
    + match goal with |- context [accept_connection E ?x] =>
        destruct (accept_connection_trace x) as (l & Hl) end.
      exists l. unfold new_calls. rewrite Hl. cbn [trace].
      now rewrite <- app_assoc, drop_app_length.
  - exists []. calls_simpl. reflexivity.
Qed.

(** Still at the cap after the hook: the accept event is deregistered and
    nothing is accepted. *)
Lemma acceptCB_backs_off (s : Sys) (ev : Event) (w' : W)
    (cs' : list Connection) :
  cap s <> 0%N -> (cap s <= live_connections s)%N ->
  acceptEvent (http s) = Some ev ->
  h_evict E (connections (http s)) (world s) = (w', (cs', Returns tt)) ->
  (cap s <= N.of_nat (length cs'))%N ->
  acceptCB E s =
    (mkSys (set_acceptEvent (Some (ev_del ev)) (set_connections cs' (http s)))
           w' (trace s ++ [CEvict (connections (http s))]), Ok tt).
Proof.
  intros Hcap Hfull Hev Hevict Hstill. unfold live_connections in Hfull.
  destruct s as [[cfg ttl prio st ee ae so ba cs] w tr].
  cbn in Hcap, Hfull, Hev, Hevict, Hstill. subst ae.
  unfold acceptCB, connection_count, Eff.bind at 1, read at 1, gets. cbn.
  unfold Eff.bind at 1, read at 1, gets. cbn.
  apply N.eqb_neq in Hcap. apply N.leb_le in Hfull. rewrite Hcap, Hfull. cbn.
  unfold Eff.bind at 1. unfold Eff.bind at 1, evict. cbn. rewrite Hevict. cbn.
  apply N.leb_le in Hstill. rewrite Hstill. reflexivity.
Qed.

(** [acceptCB] keeps the number of connections within the cap. *)
Lemma acceptCB_within_cap (s : Sys) :
  evict_shrinks E ->
  cap s <> 0%N -> (live_connections s <= cap s)%N ->
  within_cap s (fst (acceptCB E s)).
Proof.
  intros Hshrink Hcap Hle. unfold live_connections in Hle.
  destruct s as [[cfg ttl prio st ee ae so ba cs] w tr]. cbn in Hcap, Hle.
  assert (Hdone : forall h' w' tr',
             config h' = cfg ->
             (N.of_nat (length (connections h')) <= maxConnections cfg)%N ->
             within_cap
               (mkSys (mkHTTP cfg ttl prio st ee ae so ba cs) w tr)
               (mkSys h' w' tr')).
  { intros h' w' tr' Hcfg Hlen. split; assumption. }
  assert (Hacc : forall h' w' tr',
             config h' = cfg ->
             (N.of_nat (length (connections h')) < maxConnections cfg)%N ->
             within_cap
               (mkSys (mkHTTP cfg ttl prio st ee ae so ba cs) w tr)
               (fst (accept_connection E (mkSys h' w' tr')))).
  { intros h' w' tr' Hcfg Hlen.
    destruct (accept_connection_grows (mkSys h' w' tr')) as (Hc & Hl).
    cbn in Hc, Hl. split; cbn; [congruence|].
    unfold live_connections. lia. }
  unfold acceptCB, connection_count, Eff.bind at 1, read at 1, gets.
  cbn [http config maxConnections fst snd].
  unfold Eff.bind at 1, read at 1, gets. cbn [http connections].
  apply N.eqb_neq in Hcap. rewrite Hcap. cbn [negb andb].
  destruct (maxConnections cfg <=? N.of_nat (length cs))%N eqn:Hfull.
  - unfold Eff.bind at 1. unfold Eff.bind at 1, evict.
    cbn [http world trace connections].
    pose proof (Hshrink cs w) as Hs.
    destruct (h_evict E cs w) as [w1 [cs1 [[]|t]]]; cbn in Hs;
      cbn [of_outcome fst snd]; [|apply Hdone; [reflexivity | cbn; lia]].
    unfold Eff.bind at 1, read at 1, gets, ret.
    cbn [http set_connections connections fst snd].
    destruct (maxConnections cfg <=? N.of_nat (length cs1))%N eqn:Hstill.
    + unfold with_acceptEvent, Eff.bind, read, gets, deref, update, modify,
        ret, null_deref. cbn.
      destruct ae; cbn; apply Hdone; cbn; try reflexivity; lia.
    + apply N.leb_gt in Hstill. apply Hacc; [reflexivity | assumption].
  - apply N.leb_gt in Hfull. unfold Eff.bind at 1, ret.
    apply Hacc; [reflexivity | assumption].
Qed.

(** [remove] on a server that has its accept event. *)
Lemma remove_run cfg ttl prio st ee ev so ba
    (cs : list (@Connection time)) (w : W) tr (con : @Connection time) :
  remove con (mkSys (mkHTTP cfg ttl prio st ee (Some ev) so ba cs) w tr) =
  (mkSys (mkHTTP cfg ttl prio st ee (Some (ev_add None ev)) so ba
            (List.filter (fun c => negb (con_ptr c =? con_ptr con)%N) cs))
         w tr, Ok tt).
Proof. reflexivity. Qed.

Lemma remove_within_cap (s : Sys) (con : Connection) :
  (live_connections s <= cap s)%N ->
  within_cap s (fst (remove con s)).
Proof.
  intros Hle. unfold live_connections in Hle.
  destruct s as [[cfg ttl prio st ee ae so ba cs] w tr]. cbn in Hle.
  pose proof (List.filter_length_le
                (fun c => negb (con_ptr c =? con_ptr con)%N) cs) as Hlen.
  destruct ae as [ev|]; (split; [reflexivity|]);
    unfold live_connections; cbn; lia.
Qed.

Lemma expireCB_within_cap (s : Sys) :
  (live_connections s <= cap s)%N ->
  within_cap s (fst (expireCB time_sub time_lt of_unsigned E s)).
Proof.
  intros Hle. unfold live_connections in Hle.
  destruct s as [[cfg ttl prio st ee ae so ba cs] w tr]. cbn in Hle.
  destruct (expireCB_run time_sub time_lt of_unsigned E
              cfg ttl prio st ee ae so ba cs w tr) as (tr' & ->).
  split; [reflexivity|]. unfold live_connections. cbn.
  match goal with |- context [List.filter ?f cs] =>
    pose proof (List.filter_length_le f cs) end.
  lia.
Qed.

(** P1 along a run: once within the cap, always within the cap. *)
Lemma run_ops_within_cap (ops : list Op) :
  evict_shrinks E ->
  forall s : Sys,
    cap s <> 0%N -> (live_connections s <= cap s)%N ->
    (live_connections (run_ops time_sub time_lt of_unsigned E ops s)
     <= cap s)%N.
Proof.
  intros Hshrink. induction ops as [|op ops IH]; intros s Hcap Hle.
  - assumption.
  - cbn [run_ops].
    assert (Hstep : within_cap s
                      (fst (step time_sub time_lt of_unsigned E op s))).
    { destruct op as [|con|]; cbn [step].
      - now apply acceptCB_within_cap.
      - now apply remove_within_cap.
      - now apply expireCB_within_cap. }
    destruct Hstep as (Hcfg & Hlen).
    rewrite <- Hcfg. apply IH; rewrite Hcfg; assumption.
Qed.

(** C3: at the cap [acceptCB] calls the evict hook first; if the table is
    still at the cap when the hook has returned, the accept event is
    deregistered and no socket is accepted; so, with a hook that only drops
    connections, the number of live connections stays within
    [maxConnections] along every run of the server's callbacks; and
    [remove] registers the accept event again. *)
Theorem acceptCB_respects_cap :
  (forall s : Sys,
     cap s <> 0%N -> (cap s <= live_connections s)%N ->
     exists rest,
       new_calls s (fst (acceptCB E s)) =
         CEvict (connections (http s)) :: rest) /\
  (forall (s : Sys) ev w' cs',
     cap s <> 0%N -> (cap s <= live_connections s)%N ->
     acceptEvent (http s) = Some ev ->
     h_evict E (connections (http s)) (world s) = (w', (cs', Returns tt)) ->
     (cap s <= N.of_nat (length cs'))%N ->
     acceptCB E s =
       (mkSys (set_acceptEvent (Some (ev_del ev))
                 (set_connections cs' (http s)))
              w' (trace s ++ [CEvict (connections (http s))]), Ok tt) /\
     ev_pending (ev_del ev) = false) /\
  (evict_shrinks E ->
   forall ops (s : Sys),
     cap s <> 0%N -> (live_connections s <= cap s)%N ->
     (live_connections (run_ops time_sub time_lt of_unsigned E ops s)
      <= cap s)%N) /\
  (forall (s : Sys) con ev,
     acceptEvent (http s) = Some ev ->
     snd (remove con s) = Ok tt /\
     acceptEvent (http (fst (remove con s))) = Some (ev_add None ev) /\
     ev_pending (ev_add None ev) = true).
Proof.
  split; [|split; [|split]].
  - intros s Hcap Hfull. now apply acceptCB_evicts_first.
  - intros s ev w' cs' Hcap Hfull Hev Hevict Hstill.
    split; [now apply acceptCB_backs_off | reflexivity].
  - intros Hshrink ops s Hcap Hle. now apply run_ops_within_cap.
  - intros s con ev Hev.
    destruct s as [[cfg ttl prio st ee ae so ba cs] w tr]. cbn in Hev.
    subst ae. rewrite remove_run. repeat split.
Qed.

End Accept.

Section Bind.

Context {time W : Type}.
Variable E : @Env time W.

(** A second [bind] throws before it touches anything. *)
Lemma bind_already_bound (addr : IPAddress) (s : @Sys time W) :
  isSet (socket (http s)) = true ->
  HTTP.bind E addr s =
    (s, Raise (ThrowException (mkException "Already bound" 0))).
Proof.
  intros Hset. destruct s as [[cfg ttl prio st ee ae so ba cs] w tr].
  cbn in Hset. destruct so; [reflexivity | discriminate].
Qed.

End Bind.

(** C1: a handler that throws a 418 exception on a request whose reply
    throws in turn.  The catch clause of [dispatch] logs and calls
    [reply(418)]; what that call throws leaves [dispatch] from inside the
    catch clause, past the trailing [endRequest]: [endRequest] has not been
    called at all. *)
Theorem dispatch_endRequest_skipped :
  snd (dispatch Examples.env_reply_throws Examples.request1 Examples.sys0)
    = Raise ThrowOther /\
  new_calls Examples.sys0
    (fst (dispatch Examples.env_reply_throws Examples.request1
            Examples.sys0))
    = [CHandleRequest Examples.request1;
       CLog LogWarning
         [PStr "REQ"; PNum 17; PChr ":"; PAddr (mkIP 3232235777 51234);
          PChr ":"; PStr "I'm a teapot"];
       CReply Examples.request1 418] /\
  endRequest_calls Examples.request1 Examples.sys0
    (fst (dispatch Examples.env_reply_throws Examples.request1
            Examples.sys0)) = 0%nat /\
  ~ dispatch_ends_once Examples.env_reply_throws Examples.request1
      Examples.sys0.
Proof.
  split; [|split; [|split]]; try (vm_compute; reflexivity).
  unfold dispatch_ends_once. vm_compute. discriminate.
Qed.

(** The same slip the other way round: when [endRequest] throws on the
    path where [handleRequest] returned true, the catch clause runs and the
    trailing [endRequest] is a second call. *)
Example dispatch_endRequest_twice :
  endRequest_calls Examples.request1 Examples.sys0
    (fst (dispatch Examples.env_end_throws Examples.request1 Examples.sys0))
  = 2%nat.
Proof. vm_compute. reflexivity. Qed.

(** C5, witness. *)
Lemma dispatch_replies_with_code_witness :
  exists rest,
    new_calls Examples.sys0
      (fst (dispatch Examples.env_teapot Examples.request1 Examples.sys0)) =
      [CHandleRequest Examples.request1;
       CLog LogWarning
         [PStr "REQ"; PNum 17; PChr ":"; PAddr (mkIP 3232235777 51234);
          PChr ":"; PStr "I'm a teapot"];
       CReply Examples.request1 418] ++ rest /\
    (rest = [] \/ rest = [CEndRequest Examples.request1]).
Proof.
  apply (@dispatch_replies_with_code Z N Examples.env_teapot Examples.request1
           Examples.sys0 Examples.teapot 0%N).
  - reflexivity.
  - cbn. lia.
Defined.

(** C3, witness: a server at its cap of two whose hook evicts nobody, and
    a run of accepts and removals from the freshly bound server. *)
Lemma acceptCB_respects_cap_witness :
  (exists rest,
     new_calls Examples.sys_full
       (fst (acceptCB Examples.env_no_evict Examples.sys_full)) =
     CEvict (connections (http Examples.sys_full)) :: rest) /\
  (snd (acceptCB Examples.env_no_evict Examples.sys_full) = Ok tt /\
   ev_pending (ev_del Examples.accept_event) = false) /\
  (live_connections
     (run_ops Z.sub Z.ltb Z.of_N Examples.env_evict_oldest
        [OpAccept; OpAccept; OpAccept; OpRemove (Examples.connection 0 100);
         OpExpire; OpAccept]
        Examples.sys_bound) <= 2)%N /\
  acceptEvent
    (http (fst (remove (Examples.connection 0 80) Examples.sys_full))) =
  Some (ev_add None Examples.accept_event).
Proof.
  destruct (acceptCB_respects_cap Z.sub Z.ltb Z.of_N Examples.env_no_evict)
    as (Hfirst & Hback & _ & Hremove).
  destruct (acceptCB_respects_cap Z.sub Z.ltb Z.of_N
              Examples.env_evict_oldest) as (_ & _ & Hcap & _).
  split; [|split; [|split]].
  - apply Hfirst; [discriminate | vm_compute; discriminate].
  - destruct (Hback Examples.sys_full Examples.accept_event 2%N
                (connections (http Examples.sys_full))) as (Hrun & Hdel).
    + discriminate.
    + vm_compute. discriminate.
    + reflexivity.
    + reflexivity.
    + vm_compute. discriminate.
    + rewrite Hrun. split; [reflexivity | exact Hdel].
  - apply (Hcap ltac:(intros cs w; destruct cs; cbn; lia)).
    + discriminate.
    + vm_compute. discriminate.
  - apply (Hremove Examples.sys_full (Examples.connection 0 80)
             Examples.accept_event). reflexivity.
Defined.

(** C6, witness: at time 100 with a TTL of 10, the connection started at 80
    goes; those started at 90 (aged exactly 10) and at 95 stay. *)
Lemma expireCB_removes_expired_witness :
  connections
    (http (fst (expireCB Z.sub Z.ltb Z.of_N Examples.env_no_evict
                  Examples.sys_aged))) =
  [Examples.connection 1 90; Examples.connection 2 95].
Proof.
  destruct (@expireCB_removes_expired Z N Z.sub Z.ltb Z.of_N
              Examples.env_no_evict Examples.sys_aged)
    as (_ & Hconns & _).
  - intros x. apply Z.ltb_irrefl.
  - reflexivity.
  - exact Hconns.
Defined.

(** C7, witness: a TTL of 30 seconds on a server just constructed. *)
Lemma setMaxConnectionTTL_schedules_witness :
  exists ev,
    expireEvent (http (fst (setMaxConnectionTTL 30 Examples.sys0))) = Some ev /\
    ev_priority ev = Some (-1)%Z /\
    ev_pending ev = true /\ ev_timeout ev = Some 60%N.
Proof.
  destruct (@setMaxConnectionTTL_schedules Z N 30%N Examples.sys0)
    as (ev & Hrun & Hprio & Hpend & Hdelay & _).
  - discriminate.
  - exists ev. rewrite Hrun. repeat split; assumption.
Defined.

(** C10: on a server just constructed, [setMaxConnectionTTL(0)] ends in
    the dereference of the unset [expireEvent]. *)
Theorem setMaxConnectionTTL_zero_on_new_server :
  snd (setMaxConnectionTTL 0 Examples.sys0) = NullDeref.
Proof. now apply setMaxConnectionTTL_zero_unset. Qed.

End HTTPSpec.

(** ** The worker pool *)

Module PoolSpec.
Import ConcurrentPool.

Section Pool.

Context {W : Type}.
Variable E : @Env W.

Abbreviation Sys := (@Sys W).

Lemma queue_take_None (q : list Task) : queue_take q = None -> q = [].
Proof.
  destruct q as [|t q]; [reflexivity|]. cbn.
  destruct (queue_take q) as [[u rest]|]; [|discriminate].
  destruct (task_priority t <? task_priority u)%Z; discriminate.
Qed.

Lemma queue_take_Some (q : list Task) (t : Task) (q' : list Task) :
  queue_take q = Some (t, q') -> Permutation q (t :: q').
Proof.
  revert t q'. induction q as [|a q IH]; intros t q' H; [discriminate|].
  cbn in H. destruct (queue_take q) as [[u rest]|] eqn:Hq.
  - destruct (task_priority a <? task_priority u)%Z; inversion H; subst.
    + rewrite (IH _ _ eq_refl). apply perm_swap.
    + reflexivity.
  - inversion H; subst. apply queue_take_None in Hq. now subst.
Qed.

(** The [try]/[catch] around [task->run()] stores what the specification
    says and lets nothing through. *)
Lemma run_task_spec (t : Task) (s : Sys) :
  run_task E t s =
  (mkSys (pool s) (fst (t_run E t (world s))) (trace s ++ [CRun t]),
   Ok (captured_by (snd (t_run E t (world s))) t)).
Proof.
  unfold run_task, try_catch, Eff.bind, call, ret.
  destruct (t_run E t (world s)) as [w [[]|[e|what|]]]; reflexivity.
Qed.

Lemma relock_run (s : Sys) : relock E s = (fst (relock E s), Ok tt).
Proof. reflexivity. Qed.

(** One pass of the worker that finds a task. *)
Lemma run_body_task (s : Sys) (task : Task) (q' : list Task) :
  let s1 := fst (relock E s) in
  shouldShutdown E (world s1) = false ->
  queue_take (ready (pool s1)) = Some (task, q') ->
  run_body E s = (after_task E s1 task q', Ok true).
Proof.
  intros s1 Hshut Htake. unfold run_body.
  unfold Eff.bind at 1. rewrite relock_run. fold s1.
  unfold Eff.bind at 1, gets. rewrite Hshut.
  unfold Eff.bind at 1, read at 1, gets. rewrite Htake.
  unfold Eff.bind at 1, update at 1, modify.
  unfold Eff.bind at 1. rewrite run_task_spec. cbn [pool world trace].
  unfold after_task, Eff.bind, relock, update, read, modify, gets, ret.
  cbn [pool world trace fst snd].
  destruct (t_run E task (world s1)) as [w2 o]. cbn [fst snd].
  destruct (interfere E w2 (set_ready q' (pool s1))) as [w3 p3].
  reflexivity.
Qed.

(** Whatever the tasks throw, nothing leaves the worker loop. *)
Lemma run_total (fuel : nat) :
  forall s : Sys, exists s' r, run E fuel s = (s', Ok r).
Proof.
  induction fuel as [|fuel IH]; intros s.
  - do 2 eexists; reflexivity.
  - cbn [run]. unfold Eff.bind at 1, gets.
    destruct (shouldShutdown E (world s)); [do 2 eexists; reflexivity|].
    unfold Eff.bind at 1, run_body.
    unfold Eff.bind at 1. rewrite relock_run.
    unfold Eff.bind at 1, gets.
    destruct (shouldShutdown E (world (fst (relock E s))));
      [do 2 eexists; reflexivity|].
    unfold Eff.bind at 1, read at 1, gets.
    destruct (queue_take (ready (pool (fst (relock E s)))))
      as [[task q']|]; [|apply IH].
    unfold Eff.bind at 1, update at 1, modify.
    unfold Eff.bind at 1. rewrite run_task_spec.
    unfold Eff.bind at 1. rewrite relock_run.
    unfold Eff.bind, update, read, modify, gets, ret.
    apply IH.
Qed.

(** C4: a worker that takes [task] off the ready queue runs it and goes
    round its loop again, whatever [run()] throws: the task holds the
    [cb::Exception] itself, the message of another [std::exception], or
    "Unknown exception"; it has been pushed onto the completed queue and
    the event has been activated once; and nothing is ever thrown out of
    the loop that continues from there. *)
Theorem worker_captures_errors (s : Sys) (task : Task) (q' : list Task) :
  let s1 := fst (relock E s) in
  let s' := after_task E s1 task q' in
  shouldShutdown E (world s) = false ->
  shouldShutdown E (world s1) = false ->
  queue_take (ready (pool s1)) = Some (task, q') ->
  let r := t_run E task (world s1) in
  let p3 := snd (interfere E (fst r) (set_ready q' (pool s1))) in
  run_body E s = (s', Ok true) /\
  completed (pool s') =
    queue_push (captured_by (snd r) task) (completed p3) /\
  activations (pool s') = S (activations p3) /\
  (forall fuel, run E (S fuel) s = run E fuel s') /\
  (forall fuel, exists s'' r, run E fuel s' = (s'', Ok r)).
Proof.
  intros s1 s' Hrun Hshut Htake r p3.
  pose proof (@run_body_task s task q' Hshut Htake) as Hbody.
  fold s1 in Hbody. fold s' in Hbody.
  split; [assumption|]. split; [reflexivity|]. split; [reflexivity|]. split.
  - intros fuel. cbn [run]. unfold Eff.bind at 1, gets. rewrite Hrun.
    unfold Eff.bind at 1. now rewrite Hbody.
  - intros fuel. apply run_total.
Qed.

(** The callbacks of one task: nothing is thrown, and the calls are those
    the specification lists. *)
Lemma complete_task_spec (task : Task) (s : Sys) :
  exists s' l,
    complete_task E task s = (s', Ok tt) /\
    trace s' = trace s ++ l /\
    callbacks l = task_callbacks task /\
    (undisturbed E -> pool s' = pool s).
Proof.
  destruct s as [p w tr].
  unfold complete_task, CATCH_ERROR, try_catch, Eff.bind, call, log, relock,
    modify, task_callbacks; cbn.
  destruct (getFailed task); cbn.
  - destruct (t_error E task (getException task) w) as [w1 [[]|t1]]; cbn;
      destruct (t_complete E task w1) as [w2 [[]|t2]]; cbn;
      destruct (interfere E w2 p) as [w3 p3] eqn:Hi; cbn;
      (do 2 eexists; split; [reflexivity|]; cbn;
       split; [rewrite <- ?app_assoc; reflexivity|];
       split; [reflexivity|];
       intros Hu; rewrite Hu in Hi; now inversion Hi).
  - destruct (t_success E task w) as [w1 [[]|t1]]; cbn;
      destruct (t_complete E task w1) as [w2 [[]|t2]]; cbn;
      destruct (interfere E w2 p) as [w3 p3] eqn:Hi; cbn;
      (do 2 eexists; split; [reflexivity|]; cbn;
       split; [rewrite <- ?app_assoc; reflexivity|];
       split; [reflexivity|];
       intros Hu; rewrite Hu in Hi; now inversion Hi).
Qed.

Lemma callbacks_app (l1 l2 : list (@Call)) :
  callbacks (l1 ++ l2) = callbacks l1 ++ callbacks l2.
Proof. apply List.filter_app. Qed.

Lemma pool_new_calls_app (s s' : Sys) (l : list Call) :
  trace s' = trace s ++ l -> new_calls s s' = l.
Proof.
  intros H. unfold new_calls. rewrite H. now rewrite drop_app_length.
Qed.

(** One pass of the drain that finds a task: the callbacks of that task,
    then the rest of the drain, whatever the callbacks threw. *)
Lemma complete_S (fuel : nat) (s : Sys) (task : Task) (q' : list Task) :
  queue_take (completed (pool s)) = Some (task, q') ->
  complete E (S fuel) s =
    complete E fuel
      (fst (complete_task E task
              (mkSys (set_completed q' (pool s)) (world s) (trace s)))).
Proof.
  intros Htake. cbn [complete]. unfold Eff.bind at 1, read at 1, gets.
  rewrite Htake. unfold Eff.bind at 1, update at 1, modify.
  unfold Eff.bind at 1.
  destruct (@complete_task_spec task
              (mkSys (set_completed q' (pool s)) (world s) (trace s)))
    as (s1 & l1 & -> & _). reflexivity.
Qed.

(** The drain, however far it gets: no exception leaves it, and the calls
    it makes are the callbacks of the tasks it took, task after task, one
    task for each pass. *)
Lemma complete_drains (fuel : nat) :
  forall s : Sys,
  exists s' r ts l,
    complete E fuel s = (s', Ok r) /\
    trace s' = trace s ++ l /\
    callbacks l = flat_map task_callbacks ts /\
    (r = Finished -> completed (pool s') = []) /\
    (r = StillRunning -> length ts = fuel) /\
    (undisturbed E -> (length (completed (pool s)) < fuel)%nat ->
     r = Finished /\ Permutation ts (completed (pool s))).
Proof.
  induction fuel as [|fuel IH]; intros s.
  - exists s, StillRunning, [], []. split; [reflexivity|].
    split; [now rewrite app_nil_r|]. split; [reflexivity|].
    split; [discriminate|]. split; [reflexivity|]. intros _ Hlt. lia.
  - destruct (queue_take (completed (pool s))) as [[task q']|] eqn:Htake.
    + rewrite (complete_S fuel s Htake).
      destruct (@complete_task_spec task
                  (mkSys (set_completed q' (pool s)) (world s) (trace s)))
        as (s1 & l1 & -> & Hl1 & Hcb & Hpool).
      cbn [trace fst] in *.
      destruct (IH s1)
        as (s' & r & ts & l & -> & Hl & Hcalls & Hfin & Hlen & Hall).
      exists s', r, (task :: ts), (l1 ++ l). split; [reflexivity|].
      split; [now rewrite Hl, Hl1, app_assoc|].
      split; [cbn [flat_map]; now rewrite callbacks_app, Hcb, Hcalls|].
      split; [assumption|].
      split; [intros Hr; cbn [length]; now rewrite (Hlen Hr)|].
      intros Hu Hlt. apply queue_take_Some in Htake.
      specialize (Hpool Hu). cbn in Hpool.
      assert (Hq : completed (pool s1) = q') by now rewrite Hpool.
      pose proof (Permutation_length Htake) as Hlen'. cbn in Hlen'.
      destruct Hall as (Hr & Hperm); [assumption | rewrite Hq; lia |].
      split; [assumption|]. rewrite Htake, Hperm, Hq. reflexivity.
    + cbn [complete]. unfold Eff.bind at 1, read at 1, gets. rewrite Htake.
      apply queue_take_None in Htake.
      exists s, Finished, [], []. split; [reflexivity|].
      split; [now rewrite app_nil_r|]. split; [reflexivity|].
      split; [now intros _|]. split; [discriminate|].
      intros _ _. split; [reflexivity|].
      now rewrite Htake.
Qed.

(** C2: whatever the other threads do to the queues meanwhile, for each
    task the reactor-side callback takes off the completed queue it calls
    [error] with the captured value if the task failed and [success]
    otherwise, then [complete], each once; what these callbacks throw is
    caught, so [complete] always follows, the drain goes on from the queue
    as it then is, and nothing is thrown out of the drain.  The callbacks
    of a drain are those of the tasks it took, one task per pass, and it
    ends only on an empty queue.  If, in addition, no other thread touches
    the queues, the drain ends and every task that was on the queue has
    had its callbacks. *)
Theorem complete_calls_back (fuel : nat) (s : Sys) :
  (forall task s0, exists s1,
     complete_task E task s0 = (s1, Ok tt) /\
     callbacks (new_calls s0 s1) = task_callbacks task) /\
  (forall task q',
     queue_take (completed (pool s)) = Some (task, q') ->
     complete E (S fuel) s =
       complete E fuel
         (fst (complete_task E task
                 (mkSys (set_completed q' (pool s)) (world s) (trace s))))) /\
  (exists s' r ts,
     complete E fuel s = (s', Ok r) /\
     callbacks (new_calls s s') = flat_map task_callbacks ts /\
     (r = Finished -> completed (pool s') = []) /\
     (r = StillRunning -> length ts = fuel) /\
     (undisturbed E -> (length (completed (pool s)) < fuel)%nat ->
      r = Finished /\ Permutation ts (completed (pool s)))).
Proof.
  split; [|split].
  - intros task s0.
    destruct (@complete_task_spec task s0) as (s1 & l & Hrun & Hl & Hcb & _).
    exists s1. split; [assumption|]. now rewrite (@pool_new_calls_app _ _ _ Hl).
  - intros task q'. apply complete_S.
  - destruct (@complete_drains fuel s)
      as (s' & r & ts & l & Hrun & Hl & Hcb & Hfin & Hlen & Hall).
    exists s', r, ts. split; [assumption|].
    split; [now rewrite (@pool_new_calls_app _ _ _ Hl)|].
    split; [assumption|]. split; assumption.
Qed.

End Pool.
(** C2, witness: a drain of two completed tasks; the [success] callback
    of the first throws, the second task had failed. *)
Lemma complete_calls_back_witness :
  exists s' ts,
    complete (Examples.pool_env true) 3 Examples.pool_completed
      = (s', Ok Finished) /\
    Permutation ts (completed (pool Examples.pool_completed)) /\
    callbacks (new_calls Examples.pool_completed s') =
      flat_map task_callbacks ts /\
    completed (pool s') = [].
Proof.
  destruct (@complete_calls_back unit (Examples.pool_env true) 3
              Examples.pool_completed)
    as (_ & _ & s' & r & ts & Hrun & Hcb & Hfin & _ & Hall).
  destruct Hall as (Hr & Hperm).
  - intros w p. reflexivity.
  - cbn. lia.
  - exists s', ts. rewrite Hrun, Hr. repeat split; try assumption.
    now apply Hfin.
Defined.

(** C4, witness: a worker takes task 2, whose [run()] throws a
    [std::exception]. *)
Lemma worker_captures_errors_witness :
  run_body (Examples.pool_env true) Examples.pool_ready =
    (after_task (Examples.pool_env true) Examples.pool_ready
       (Examples.task 2 5) [Examples.task 4 0], Ok true) /\
  completed
    (pool (after_task (Examples.pool_env true) Examples.pool_ready
             (Examples.task 2 5) [Examples.task 4 0])) =
    [setException (CapturedString "bad_alloc") (Examples.task 2 5)].
Proof.
  destruct (@worker_captures_errors unit (Examples.pool_env true)
              Examples.pool_ready (Examples.task 2 5) [Examples.task 4 0])
    as (Hbody & Hdone & _).
  - reflexivity.
  - reflexivity.
  - reflexivity.
  - split; [exact Hbody | exact Hdone].
Defined.

End PoolSpec.

(** ** Options *)

Module OptionSpec.
Import Option.

Section Option.

Variable DEFAULT_SET_FLAG SET_FLAG OPTIONAL_FLAG COMMAND_LINE_FLAG : N.
Context {D W : Type}.
Variable E : @Env D W.

Abbreviation Sys := (@Sys W).
Abbreviation set' :=
  (set DEFAULT_SET_FLAG SET_FLAG OPTIONAL_FLAG COMMAND_LINE_FLAG E).
Abbreviation validate' := (validate DEFAULT_SET_FLAG SET_FLAG E).
Abbreviation printHelp' :=
  (printHelp DEFAULT_SET_FLAG SET_FLAG OPTIONAL_FLAG E).

(** [getDefault] returns or throws; it dereferences no unset handle. *)
Lemma getDefault_no_fault :
  forall o, getDefault DEFAULT_SET_FLAG SET_FLAG o <> NullDeref.
Proof.
  fix IH 1. intros [n ty h f v d [p|] a c]; cbn.
  - destruct (has_flag DEFAULT_SET_FLAG _); [discriminate|].
    destruct (hasValue DEFAULT_SET_FLAG SET_FLAG p); [|discriminate].
    unfold toString_with.
    destruct (isSet SET_FLAG p); [discriminate|].
    destruct (hasDefault DEFAULT_SET_FLAG SET_FLAG p); [apply IH|].
    destruct (type p); discriminate.
  - destruct (has_flag DEFAULT_SET_FLAG _); discriminate.
Qed.

Lemma printHelp_no_fault (o : Option) (w : W) : printHelp' o w <> NullDeref.
Proof.
  unfold printHelp, getTypeString, rbind.
  destruct (type o); try discriminate;
    (destruct (hasDefault DEFAULT_SET_FLAG SET_FLAG o); [|discriminate];
     pose proof (getDefault_no_fault o);
     destruct (getDefault DEFAULT_SET_FLAG SET_FLAG o);
     [discriminate | discriminate | congruence]).
Qed.

(** C9 (amended): when the validation of the new value throws a
    [cb::Exception], the one kind of exception [set] catches, and
    [Options::warnWhenInvalid] is false, [set] ends by throwing, the option
    is exactly what it was before the call (flags and value included), and
    its action has not been invoked. *)
Theorem set_restores_on_invalid (v : string) (s : Sys) (e : Exception) :
  warnWhenInvalid s = false ->
  unchanged_by SET_FLAG v (this s) = false ->
  validate' (candidate SET_FLAG COMMAND_LINE_FLAG v (this s))
    = Raise (ThrowException e) ->
  (exists t, snd (set' v s) = Raise t) /\
  this (fst (set' v s)) = this s /\
  flags (this (fst (set' v s))) = flags (this s) /\
  value (this (fst (set' v s))) = value (this s) /\
  trace (fst (set' v s)) = trace s.
Proof.
  intros Hwarn Hskip Hval.
  destruct s as [o warn w tr]. cbn in Hwarn, Hskip, Hval. subst warn.
  assert (Hrun : exists t,
            set' v (mkSys o false w tr) = (mkSys o false w tr, Raise t)).
  { unfold set, Eff.bind at 1, get. cbn [this].
    unfold unchanged_by in Hskip. rewrite Hskip.
    unfold candidate in Hval. destruct o as [n ty h f v0 d p a c].
    unfold set_flags, set_value in Hval.
    cbn [name type help flags value defaultValue parent action constraint]
      in Hval.
    do 3 (unfold Eff.bind at 1, update at 1, modify;
          cbn [this warnWhenInvalid world trace]).
    unfold Eff.bind at 1, try_catch, lift. cbn [this].
    unfold set_flags, set_value.
    cbn [name type help flags value defaultValue parent action constraint].
    rewrite Hval.
    unfold Eff.bind, update, modify, read, gets, raise. cbn.
    pose proof (printHelp_no_fault (mkOption n ty h f v0 d p a c) w) as Hnf.
    destruct (printHelp' (mkOption n ty h f v0 d p a c) w) as [text|t|];
      [| |congruence]; eexists; reflexivity. }
  destruct Hrun as (t & ->). cbn. repeat split. now exists t.
Qed.

End Option.
(** C9, witness: the integer option "threads", set to "4" on the command
    line, is given the value "many". *)
Lemma set_restores_on_invalid_witness :
  (exists t,
     snd (Option.set Examples.DEFAULT_SET_FLAG Examples.SET_FLAG
            Examples.OPTIONAL_FLAG Examples.COMMAND_LINE_FLAG
            Examples.option_env "many" Examples.option_sys) = Raise t) /\
  this (fst (Option.set Examples.DEFAULT_SET_FLAG Examples.SET_FLAG
               Examples.OPTIONAL_FLAG Examples.COMMAND_LINE_FLAG
               Examples.option_env "many" Examples.option_sys))
  = Examples.threads_option.
Proof.
  destruct (@set_restores_on_invalid Examples.DEFAULT_SET_FLAG
              Examples.SET_FLAG Examples.OPTIONAL_FLAG
              Examples.COMMAND_LINE_FLAG Z unit Examples.option_env
              "many" Examples.option_sys (mkException "Invalid integer" 0))
    as (Hthrows & Hsame & _).
  - reflexivity.
  - reflexivity.
  - reflexivity.
  - split; [exact Hthrows | exact Hsame].
Defined.

(** C9, counterexample: the constraint of the text option "user" throws a
    [std::bad_cast], which is no [cb::Exception].  Validation throws,
    [Options::warnWhenInvalid] is false and [set("root")] ends by throwing,
    but the catch clause of [set] does not apply: the option is left marked
    set and holding "root", not as it was before the call. *)
Lemma set_not_restored_on_other_exception :
  validate Examples.DEFAULT_SET_FLAG Examples.SET_FLAG
    Scenarios.option_env_std
    (candidate Examples.SET_FLAG Examples.COMMAND_LINE_FLAG "root"
       Scenarios.checked_option)
    = Raise (ThrowStd "bad_cast") /\
  snd (Option.set Examples.DEFAULT_SET_FLAG Examples.SET_FLAG
         Examples.OPTIONAL_FLAG Examples.COMMAND_LINE_FLAG
         Scenarios.option_env_std "root"
         (Scenarios.sys_of Scenarios.checked_option false))
    = Raise (ThrowStd "bad_cast") /\
  flags Scenarios.checked_option = 0%N /\
  value Scenarios.checked_option = "" /\
  flags (this (fst (Option.set Examples.DEFAULT_SET_FLAG Examples.SET_FLAG
                      Examples.OPTIONAL_FLAG Examples.COMMAND_LINE_FLAG
                      Scenarios.option_env_std "root"
                      (Scenarios.sys_of Scenarios.checked_option false))))
    = 2%N /\
  value (this (fst (Option.set Examples.DEFAULT_SET_FLAG Examples.SET_FLAG
                      Examples.OPTIONAL_FLAG Examples.COMMAND_LINE_FLAG
                      Scenarios.option_env_std "root"
                      (Scenarios.sys_of Scenarios.checked_option false))))
    = "root" /\
  this (fst (Option.set Examples.DEFAULT_SET_FLAG Examples.SET_FLAG
               Examples.OPTIONAL_FLAG Examples.COMMAND_LINE_FLAG
               Scenarios.option_env_std "root"
               (Scenarios.sys_of Scenarios.checked_option false)))
    <> Scenarios.checked_option.
Proof.
  repeat split; try (vm_compute; reflexivity).
  vm_compute. discriminate.
Qed.

End OptionSpec.

(** ** Configuration errors *)

Module ConfigSpec.

(** C8: a pool cannot be constructed when threads are not enabled on the
    event base, and a second [bind] throws "Already bound" and leaves the
    server, its listener, accept event and bound address included, as it
    was. *)
Theorem configuration_errors_throw :
  (forall (W : Type) (E : @ConcurrentPool.Env W) (size : N) (w : W),
     ConcurrentPool.threadsEnabled E w = false ->
     exists e, ConcurrentPool.create E size w = Raise (ThrowException e)) /\
  (forall (time W : Type) (E : @HTTP.Env time W) (addr : HTTP.IPAddress)
          (s : @HTTP.Sys time W),
     HTTP.isSet (HTTP.socket (HTTP.http s)) = true ->
     exists e,
       HTTP.bind E addr s = (s, Raise (ThrowException e)) /\
       message e = "Already bound").
Proof.
  split.
  - intros W E size w Hoff. unfold ConcurrentPool.create. rewrite Hoff.
    eexists; reflexivity.
  - intros time W E addr s Hset. eexists. split.
    + now apply HTTPSpec.bind_already_bound.
    + reflexivity.
Qed.

(** C8, witness: a pool on a base without threads, and a second bind of the
    server bound to [localhost]. *)
Lemma configuration_errors_throw_witness :
  (exists e,
     ConcurrentPool.create (Examples.pool_env false) 4 tt
       = Raise (ThrowException e)) /\
  (exists e,
     HTTP.bind Examples.env_no_evict (HTTP.mkIP 2130706433 8081)
               Examples.sys_bound
       = (Examples.sys_bound, Raise (ThrowException e)) /\
     message e = "Already bound").
Proof.
  destruct configuration_errors_throw as (Hpool & Hbind).
  split.
  - apply (Hpool unit (Examples.pool_env false) 4%N tt). reflexivity.
  - apply (Hbind Z N Examples.env_no_evict (HTTP.mkIP 2130706433 8081)
             Examples.sys_bound).
    reflexivity.
Defined.

End ConfigSpec.

(** ** More on the HTTP server front *)

Module HTTPMore.
Import HTTP HTTPObs.

Ltac oracle :=
  match goal with
  | |- context [let (_, _) := ?f in _] =>
      let w := fresh "w" in
      let r := fresh "r" in
      let Hc := fresh "Hc" in
      destruct f as [w r] eqn:Hc; destruct r as [[]|?]; cbn
  end.

Ltac calls_simpl :=
  unfold new_calls; cbn [trace]; rewrite <- ?app_assoc;
  rewrite drop_app_length; cbn.

Section Dispatch.

Context {time W : Type}.
Variable E : @Env time W.

Abbreviation Sys := (@Sys time W).
Abbreviation Call := (@Call time).

(** A catch clause of [dispatch] logs, makes its one reply and falls
    through, or leaves by the exception its reply throws. *)
Lemma dispatch_catch_replies (req : Request) (t : thrown) (s : Sys) :
  exists l,
    trace (fst (dispatch_catch E req t s)) = trace s ++ l /\
    replies l = [reply_for req t] /\
    quiet req l /\
    http (fst (dispatch_catch E req t s)) = http s /\
    (snd (dispatch_catch E req t s) = Ok None \/
     exists t', snd (dispatch_catch E req t s) = Raise t').
Proof.
  unfold dispatch_catch, reply_for, quiet. destruct t as [e|what|].
  - destruct ((400 <=? code e)%Z && (code e <? 600)%Z).
    + unfold Eff.bind, log, call, ret. cbn. oracle;
        (eexists; split; [cbn; rewrite <- ?app_assoc; reflexivity|];
         do 3 (split; [reflexivity|]));
        [left; reflexivity | right; eexists; reflexivity].
    + unfold Eff.bind, log, call, ret, LOG_DEBUG, when, log.
      destruct (debug_enabled E 3); cbn; oracle;
        (eexists; split; [cbn; rewrite <- ?app_assoc; reflexivity|];
         do 3 (split; [reflexivity|]));
        solve [left; reflexivity | right; eexists; reflexivity].
  - unfold Eff.bind, log, call, ret. cbn. oracle;
      (eexists; split; [cbn; rewrite <- ?app_assoc; reflexivity|];
       do 3 (split; [reflexivity|]));
      [left; reflexivity | right; eexists; reflexivity].
  - unfold Eff.bind, log, call, ret. cbn. oracle;
      (eexists; split; [cbn; rewrite <- ?app_assoc; reflexivity|];
       do 3 (split; [reflexivity|]));
      [left; reflexivity | right; eexists; reflexivity].
Qed.

Lemma replies_app (l1 l2 : list Call) :
  replies (l1 ++ l2) = replies l1 ++ replies l2.
Proof. apply List.filter_app. Qed.

(** [dispatch] in terms of its three parts. *)
Lemma dispatch_returned (req : Request) (s s1 : Sys) (r : option bool) :
  dispatch_try E req s = (s1, Ok r) ->
  dispatch E req s = after_try E req r s1.
Proof.
  intros H. unfold dispatch, Eff.bind at 1, try_catch. rewrite H.
  destruct r; reflexivity.
Qed.

Lemma dispatch_caught (req : Request) (s s1 : Sys) (t : thrown) :
  dispatch_try E req s = (s1, Raise t) ->
  dispatch E req s = Eff.bind (dispatch_catch E req t) (after_try E req) s1.
Proof.
  intros H. unfold dispatch, Eff.bind at 1, try_catch. rewrite H.
  unfold Eff.bind. destruct (dispatch_catch E req t s1) as [s2 [[b|]| |]];
    reflexivity.
Qed.

(** Falling through to the end: [endRequest] and [return false]. *)
Lemma fall_through (req : Request) (s : Sys) :
  trace (fst (after_try E req None s)) = trace s ++ [CEndRequest req] /\
  http (fst (after_try E req None s)) = http s /\
  (snd (after_try E req None s) = Ok false \/
   exists t, snd (after_try E req None s) = Raise t).
Proof.
  unfold after_try, Eff.bind, call, ret.
  destruct (h_endRequest E req (world s)) as [w [[]|t]]; cbn;
    (do 2 (split; [reflexivity|])); [now left | right; now exists t].
Qed.

(** A catch clause followed by the end of [dispatch]. *)
Lemma caught_then_end (req : Request) (t : thrown) (s : Sys) :
  let out := Eff.bind (dispatch_catch E req t) (after_try E req) s in
  (exists l, trace (fst out) = trace s ++ l /\
             replies l = [reply_for req t] /\
             (length (List.filter (is_endRequest req) l) <= 1)%nat) /\
  http (fst out) = http s /\
  (snd out = Ok false \/ exists t', snd out = Raise t').
Proof.
  intros out. subst out. unfold Eff.bind.
  destruct (dispatch_catch_replies req t s) as (l & Hl & Hr & Hq & Hh & Hres).
  destruct (dispatch_catch E req t s) as [s2 r2]. cbn [fst snd] in *.
  destruct Hres as [-> | (t' & ->)].
  - destruct (fall_through req s2) as (Htr & Hh2 & Hres).
    split; [|split; [congruence | assumption]].
    exists (l ++ [CEndRequest req]).
    split; [now rewrite Htr, Hl, app_assoc|].
    split; [now rewrite replies_app, Hr|].
    rewrite List.filter_app, length_app. unfold quiet in Hq. rewrite Hq.
    cbn. destruct (bool_decide (req = req)); cbn; lia.
  - split; [|split; [assumption | right; now exists t']].
    exists l. split; [assumption|]. split; [assumption|].
    unfold quiet in Hq. rewrite Hq. cbn. lia.
Qed.

(** Whatever [handleRequest] throws, [dispatch] answers the client with
    exactly one reply, the one its catch clauses assign to the thrown
    value, however the logging is set up and whether or not that reply or
    [endRequest] throws in turn. *)
Theorem dispatch_one_reply_per_throw (req : Request) (s : Sys) (t : thrown)
    (w1 : W) :
  h_handleRequest E req (world s) = (w1, Throws t) ->
  replies (new_calls s (fst (dispatch E req s))) = [reply_for req t].
Proof.
  intros Hh.
  rewrite (@dispatch_caught req s
             (mkSys (http s) w1 (trace s ++ [CHandleRequest req])) t).
  - match goal with |- context [Eff.bind _ _ ?x] =>
      destruct (caught_then_end req t x) as ((l & Hl & Hr & _) & _) end.
    cbn [trace] in Hl. unfold new_calls.
    rewrite Hl, <- app_assoc, drop_app_length.
    now rewrite replies_app, Hr.
  - unfold dispatch_try, Eff.bind, call. now rewrite Hh.
Qed.

(** The ways out of [dispatch]. *)
Lemma dispatch_outcome (req : Request) (s : Sys) :
  (snd (dispatch E req s) = Ok true <->
   exists w1 w2,
     h_handleRequest E req (world s) = (w1, Returns true) /\
     h_endRequest E req w1 = (w2, Returns tt)) /\
  (snd (dispatch E req s) = Ok true \/
   snd (dispatch E req s) = Ok false \/
   exists t, snd (dispatch E req s) = Raise t) /\
  http (fst (dispatch E req s)) = http s.
Proof.
  assert (Hcaught : forall s1 t,
            http s1 = http s ->
            dispatch_try E req s = (s1, Raise t) ->
            (snd (dispatch E req s) = Ok true <-> False) /\
            (snd (dispatch E req s) = Ok true \/
             snd (dispatch E req s) = Ok false \/
             exists t, snd (dispatch E req s) = Raise t) /\
            http (fst (dispatch E req s)) = http s).
  { intros s1 t Hx Htry. rewrite (dispatch_caught _ _ Htry).
    destruct (caught_then_end req t s1) as (_ & Hh & Hres).
    split; [|split; [|congruence]].
    - destruct Hres as [Hres | (t' & Hres)]; rewrite Hres; split;
        [discriminate | tauto | discriminate | tauto].
    - destruct Hres as [Hres | Hres]; [right; now left | right; now right]. }
  destruct (h_handleRequest E req (world s)) as [w1 [[|]|t]] eqn:Hh.
  - destruct (h_endRequest E req w1) as [w2 [[]|t]] eqn:He.
    + assert (Htry : dispatch_try E req s =
                (mkSys (http s) w2
                   ((trace s ++ [CHandleRequest req]) ++ [CEndRequest req]),
                 Ok (Some true))).
      { unfold dispatch_try, Eff.bind, call, ret. rewrite Hh. cbn.
        now rewrite He. }
      rewrite (dispatch_returned _ _ Htry). cbn.
      split; [|split; [now left | reflexivity]].
      split; [intros _; now exists w1, w2 | reflexivity].
    + edestruct Hcaught as (Hiff & Hres & Hhttp).
      2:{ unfold dispatch_try, Eff.bind, call, ret. rewrite Hh. cbn.
          rewrite He. reflexivity. }
      * reflexivity.
      * split; [|split; assumption].
        split; [tauto|]. intros (w1' & w2' & H1 & H2).
        inversion H1; subst. rewrite He in H2. discriminate.
  - destruct (r_sendError E req HTTP_NOT_FOUND w1) as [w2 [[]|t]] eqn:H404.
    + assert (Htry : dispatch_try E req s =
                (mkSys (http s) w2
                   ((trace s ++ [CHandleRequest req]) ++
                    [CSendError req HTTP_NOT_FOUND]), Ok None)).
      { unfold dispatch_try, Eff.bind, call, ret. rewrite Hh. cbn.
        now rewrite H404. }
      rewrite (dispatch_returned _ _ Htry).
      match goal with |- context [after_try E req None ?x] =>
        destruct (fall_through req x) as (_ & Hhttp & Hres) end.
      split; [|split; [|assumption]].
      * split.
        -- destruct Hres as [Hres | (t & Hres)]; rewrite Hres; discriminate.
        -- intros (w1' & w2' & H1 & _). discriminate.
      * destruct Hres as [Hres | Hres]; [right; now left | right; now right].
    + edestruct Hcaught as (Hiff & Hres & Hhttp).
      2:{ unfold dispatch_try, Eff.bind, call, ret. rewrite Hh. cbn.
          rewrite H404. reflexivity. }
      * reflexivity.
      * split; [|split; assumption].
        split; [tauto|]. intros (w1' & w2' & H1 & _). discriminate.
  - edestruct Hcaught as (Hiff & Hres & Hhttp).
    2:{ unfold dispatch_try, Eff.bind, call, ret. rewrite Hh. reflexivity. }
    + reflexivity.
    + split; [|split; assumption].
      split; [tauto|]. intros (w1' & w2' & H1 & _). discriminate.
Qed.

(** [dispatch] returns true exactly when [handleRequest] returned true and
    [endRequest] then returned: a handler that declines, a handler that
    throws and an [endRequest] that throws all make it return false or
    throw. *)
Theorem dispatch_true_iff (req : Request) (s : Sys) :
  snd (dispatch E req s) = Ok true <->
  exists w1 w2,
    h_handleRequest E req (world s) = (w1, Returns true) /\
    h_endRequest E req w1 = (w2, Returns tt).
Proof. apply dispatch_outcome. Qed.

(** A catch clause, run to its end. *)
Lemma dispatch_catch_run (req : Request) (t : thrown) (s : Sys) :
  exists l,
    quiet req l /\
    dispatch_catch E req t s =
      (mkSys (http s) (fst (catch_reply E req t (world s))) (trace s ++ l),
       match snd (catch_reply E req t (world s)) with
       | Returns _ => Ok None
       | Throws t' => Raise t'
       end).
Proof.
  unfold dispatch_catch, catch_reply, quiet. destruct t as [e|what|].
  - destruct ((400 <=? code e)%Z && (code e <? 600)%Z).
    + unfold Eff.bind, log, call, ret. cbn. oracle;
        (eexists; split; [|rewrite <- ?app_assoc; reflexivity]; reflexivity).
    + unfold Eff.bind, log, call, ret, LOG_DEBUG, when, log.
      destruct (debug_enabled E 3); cbn; oracle;
        (eexists; split; [|rewrite <- ?app_assoc; reflexivity]; reflexivity).
  - unfold Eff.bind, log, call, ret. cbn. oracle;
      (eexists; split; [|rewrite <- ?app_assoc; reflexivity]; reflexivity).
  - unfold Eff.bind, log, call, ret. cbn. oracle;
      (eexists; split; [|rewrite <- ?app_assoc; reflexivity]; reflexivity).
Qed.

Lemma endRequest_calls_app (req : Request) (s0 s1 : Sys) (l : list Call) :
  trace s1 = trace s0 ++ l ->
  endRequest_calls req s0 s1 = length (List.filter (is_endRequest req) l).
Proof.
  intros H. unfold endRequest_calls, new_calls.
  now rewrite H, drop_app_length.
Qed.

(** The calls of [endRequest] from a catch clause on. *)
Lemma caught_count_spec (req : Request) (t : thrown) (s0 s1 : Sys)
    (pre : list Call) :
  trace s1 = trace s0 ++ pre ->
  endRequest_calls req s0
    (fst (Eff.bind (dispatch_catch E req t) (after_try E req) s1))
  = (length (List.filter (is_endRequest req) pre) +
     caught_count E req t (world s1))%nat.
Proof.
  intros Hpre. destruct (dispatch_catch_run req t s1) as (l & Hq & Hrun).
  unfold Eff.bind at 1. rewrite Hrun. unfold caught_count.
  destruct (catch_reply E req t (world s1)) as [w [[]|t']]; cbn [fst snd].
  - unfold after_try, Eff.bind, call, ret. cbn [world trace http].
    rewrite (@endRequest_calls_app req s0 _ (pre ++ l ++ [CEndRequest req])).
    + rewrite !List.filter_app, !length_app. unfold quiet in Hq.
      rewrite Hq. cbn. rewrite bool_decide_true by reflexivity. cbn. lia.
    + destruct (h_endRequest E req w) as [w' [[]|t']]; cbn [fst trace];
        now rewrite Hpre, <- !app_assoc.
  - rewrite (@endRequest_calls_app req s0 _ (pre ++ l)).
    + rewrite List.filter_app, length_app. unfold quiet in Hq.
      rewrite Hq. cbn. lia.
    + cbn [trace]. now rewrite Hpre, <- app_assoc.
Qed.

(** How often [dispatch] calls [endRequest], on every path and whatever is
    thrown: once when [handleRequest] returns true and [endRequest]
    returns; once when the handler declines and the 404 reply returns;
    when something is thrown inside the [try] (by [handleRequest], by the
    404 reply or by [endRequest] itself) the trailing [endRequest] is
    called if and only if the reply made in the catch clause returns.  So
    a throwing reply in a catch clause leaves the request without its
    [endRequest], and an [endRequest] that throws is called a second
    time. *)
Theorem dispatch_endRequest_count (req : Request) (s : Sys) :
  endRequest_calls req s (fst (dispatch E req s))
  = endRequest_count E req (world s).
Proof.
  unfold endRequest_count.
  destruct (h_handleRequest E req (world s)) as [w1 [[|]|t]] eqn:Hh.
  - destruct (h_endRequest E req w1) as [w2 [[]|t]] eqn:He.
    + rewrite (@dispatch_returned req s
                 (mkSys (http s) w2
                    ((trace s ++ [CHandleRequest req]) ++ [CEndRequest req]))
                 (Some true)).
      * cbn [after_try]. unfold ret. cbn [fst].
        rewrite (@endRequest_calls_app req s _
                   [CHandleRequest req; CEndRequest req]).
        -- cbn. now rewrite bool_decide_true.
        -- cbn [trace]. now rewrite <- app_assoc.
      * unfold dispatch_try, Eff.bind, call, ret. rewrite Hh. cbn.
        now rewrite He.
    + rewrite (@dispatch_caught req s
                 (mkSys (http s) w2
                    ((trace s ++ [CHandleRequest req]) ++ [CEndRequest req]))
                 t).
      * rewrite (@caught_count_spec req t s _
                   [CHandleRequest req; CEndRequest req]).
        -- cbn. now rewrite bool_decide_true.
        -- cbn [trace]. now rewrite <- app_assoc.
      * unfold dispatch_try, Eff.bind, call, ret. rewrite Hh. cbn.
        now rewrite He.
  - destruct (r_sendError E req HTTP_NOT_FOUND w1) as [w2 [[]|t]] eqn:H404.
    + rewrite (@dispatch_returned req s
                 (mkSys (http s) w2
                    ((trace s ++ [CHandleRequest req]) ++
                     [CSendError req HTTP_NOT_FOUND]))
                 None).
      * unfold after_try, Eff.bind, call, ret. cbn [world trace http].
        rewrite (@endRequest_calls_app req s _
                   [CHandleRequest req; CSendError req HTTP_NOT_FOUND;
                    CEndRequest req]).
        -- cbn. now rewrite bool_decide_true.
        -- destruct (h_endRequest E req w2) as [w3 [[]|t]]; cbn [fst trace];
             now rewrite <- !app_assoc.
      * unfold dispatch_try, Eff.bind, call, ret. rewrite Hh. cbn.
        now rewrite H404.
    + rewrite (@dispatch_caught req s
                 (mkSys (http s) w2
                    ((trace s ++ [CHandleRequest req]) ++
                     [CSendError req HTTP_NOT_FOUND]))
                 t).
      * rewrite (@caught_count_spec req t s _
                   [CHandleRequest req; CSendError req HTTP_NOT_FOUND]).
        -- reflexivity.
        -- cbn [trace]. now rewrite <- app_assoc.
      * unfold dispatch_try, Eff.bind, call, ret. rewrite Hh. cbn.
        now rewrite H404.
  - rewrite (@dispatch_caught req s
               (mkSys (http s) w1 (trace s ++ [CHandleRequest req])) t).
    + rewrite (@caught_count_spec req t s _ [CHandleRequest req]);
        reflexivity.
    + unfold dispatch_try, Eff.bind, call. now rewrite Hh.
Qed.

End Dispatch.
Section Settings.

Context {time W : Type}.
Variable E : @Env time W.

Abbreviation Sys := (@Sys time W).

(** A first [bind] on which the socket layer gives a descriptor: the
    server is bound to the address, its accept event is registered,
    persistent and on that descriptor, with the server's event priority
    applied only if that is not negative; a second [bind], to any address,
    then throws and changes nothing. *)
Theorem bind_once (addr addr2 : IPAddress) (s : Sys) (fd : N) (w1 : W) :
  socket (http s) = None ->
  s_listen E addr (connectionBacklog (config (http s))) (world s)
    = (w1, Returns fd) ->
  let s1 := fst (HTTP.bind E addr s) in
  snd (HTTP.bind E addr s) = Ok tt /\
  socket (http s1) = Some fd /\
  boundAddr (http s1) = addr /\
  acceptEvent (http s1) = Some (listener fd (priority (http s))) /\
  connections (http s1) = connections (http s) /\
  (exists e, HTTP.bind E addr2 s1 = (s1, Raise (ThrowException e)) /\
             message e = "Already bound").
Proof.
  intros Hnone Hlisten s1.
  assert (Hrun : HTTP.bind E addr s =
            (mkSys (set_boundAddr addr
                      (set_socket (Some fd)
                         (set_acceptEvent
                            (Some (listener fd (priority (http s))))
                            (http s))))
                   w1
                   (trace s ++
                    [CListen addr (connectionBacklog (config (http s)))]),
             Ok tt)).
  { destruct s as [[cfg ttl prio st ee ae so ba cs] w tr].
    cbn in Hnone, Hlisten. subst so.
    unfold HTTP.bind, Eff.bind, read, gets, call, update, modify, when,
      with_acceptEvent, deref, ret. cbn. rewrite Hlisten. cbn.
    unfold listener. destruct (0 <=? prio)%Z; reflexivity. }
  subst s1. rewrite Hrun. cbn [fst snd].
  repeat (split; [reflexivity|]).
  eexists. split; [now apply HTTPSpec.bind_already_bound | reflexivity].
Qed.

(** A [bind] on which the socket layer throws leaves the server as it
    was, unbound and without accept event, so that it can be bound
    again. *)
Theorem bind_failure_leaves_unbound (addr : IPAddress) (s : Sys)
    (t : thrown) (w1 : W) :
  socket (http s) = None ->
  s_listen E addr (connectionBacklog (config (http s))) (world s)
    = (w1, Throws t) ->
  snd (HTTP.bind E addr s) = Raise t /\
  http (fst (HTTP.bind E addr s)) = http s.
Proof.
  intros Hnone Hlisten.
  assert (Hrun : exists tr', HTTP.bind E addr s
                             = (mkSys (http s) w1 tr', Raise t)).
  { destruct s as [[cfg ttl prio st ee ae so ba cs] w tr].
    cbn in Hnone, Hlisten. subst so.
    unfold HTTP.bind, Eff.bind, read, gets, call. cbn. rewrite Hlisten.
    eexists; reflexivity. }
  destruct Hrun as (tr' & ->). split; reflexivity.
Qed.

(** [setEventPriority] tests each event handle before it uses it: it
    returns on every server, stores the priority, and gives the events that
    exist the priority [p - 1] (or 0 for [p = 0]) when [p] is not negative;
    a negative [p] leaves their priorities alone. *)
Lemma setEventPriority_guards_handles (p : Z) (s : Sys) :
  let adjust := fun e : Event =>
    if (0 <=? p)%Z then ev_setPriority (timer_priority p) e else e in
  setEventPriority p s =
    (mkSys (set_acceptEvent (option_map adjust (acceptEvent (http s)))
              (set_expireEvent (option_map adjust (expireEvent (http s)))
                 (set_priority p (http s))))
           (world s) (trace s), Ok tt).
Proof.
  destruct s as [[cfg ttl prio st ee ae so ba cs] w tr].
  unfold setEventPriority, Eff.bind, update, modify, read, gets, when,
    with_expireEvent, with_acceptEvent, deref, ret. cbn.
  destruct (0 <=? p)%Z; destruct ee as [e1|]; destruct ae as [e2|];
    reflexivity.
Qed.

(** [setMaxConnectionTTL(0)] returns exactly on the servers whose expire
    event exists; there it leaves the event deregistered and otherwise
    unchanged. *)
Theorem setMaxConnectionTTL_zero_iff (s : Sys) :
  (snd (setMaxConnectionTTL 0 s) = Ok tt <->
   isSet (expireEvent (http s)) = true) /\
  (forall ev, expireEvent (http s) = Some ev ->
     expireEvent (http (fst (setMaxConnectionTTL 0 s))) = Some (ev_del ev) /\
     maxConnectionTTL (http (fst (setMaxConnectionTTL 0 s))) = 0%N).
Proof.
  destruct s as [[cfg ttl prio st ee ae so ba cs] w tr].
  destruct ee as [ev|]; cbn.
  - unfold setMaxConnectionTTL, Eff.bind, update, modify, read, gets,
      deref, ret, with_expireEvent, isPending. cbn.
    destruct ev as [cb fd fl pr pend to]. destruct pend; cbn.
    + split; [tauto|]. intros ev Hev. inversion Hev; subst.
      split; reflexivity.
    + split; [tauto|]. intros ev Hev. inversion Hev; subst.
      split; reflexivity.
  - split; [|discriminate]. split; discriminate.
Qed.

(** For a priority that is not negative and a nonzero TTL, it does not
    matter in which order [setEventPriority] and [setMaxConnectionTTL] are
    called: the server ends up the same, the expire event registered for
    60 seconds at the priority derived from the new one. *)
Theorem priority_ttl_commute (p : Z) (x : N) (s : Sys) :
  (0 <= p)%Z -> x <> 0%N ->
  (setEventPriority p;; setMaxConnectionTTL x) s =
  (setMaxConnectionTTL x;; setEventPriority p) s.
Proof.
  intros Hp Hx. apply Z.leb_le in Hp.
  destruct s as [[cfg ttl prio st ee ae so ba cs] w tr].
  destruct x as [|q]; [congruence|].
  unfold setEventPriority, setMaxConnectionTTL, Eff.bind, update, modify,
    read, gets, when, with_expireEvent, with_acceptEvent, deref, ret.
  cbn. rewrite Hp. cbn.
  destruct ee as [e1|]; destruct ae as [e2|]; reflexivity.
Qed.

End Settings.
Section Connections.

Context {time W : Type}.
Variable time_sub : time -> time -> time.
Variable time_lt : time -> time -> bool.
Variable of_unsigned : N -> time.
Variable E : @Env time W.

Abbreviation Sys := (@Sys time W).
Abbreviation Call := (@Call time).
Abbreviation cap s := (maxConnections (config (http s))).

(** Accepting touches nothing of the server but its connection list, and
    never calls the evict hook. *)
Lemma accept_connection_frame cfg ttl prio st ee ae so ba cs (w : W) tr :
  exists cs' w' l,
    fst (accept_connection E
           (mkSys (mkHTTP cfg ttl prio st ee ae so ba cs) w tr)) =
      mkSys (mkHTTP cfg ttl prio st ee ae so ba cs') w' (tr ++ l) /\
    List.filter is_evict l = [].
Proof.
  unfold accept_connection, Eff.bind, read, gets, deref, call, log, ret,
    null_deref, LOG_DEBUG, when, update, modify; cbn.
  destruct so as [fd|]; cbn;
    [|exists cs, w, []; split; [now rewrite app_nil_r | reflexivity]].
  destruct (s_accept E fd w) as [w1 [[[peer sock]|]|t]]; cbn;
    try (do 3 eexists; split; [rewrite <- ?app_assoc; reflexivity|];
         reflexivity).
  destruct (debug_enabled E 4); cbn;
    (destruct (s_setBuffers E sock w1) as [w2 [[]|t]]; cbn;
       [|do 3 eexists; split; [rewrite <- ?app_assoc; reflexivity|];
         reflexivity]);
    (destruct (c_new E peer sock (sslCtx cfg) w2) as [w3 [con|t]]; cbn;
       [|do 3 eexists; split; [rewrite <- ?app_assoc; reflexivity|];
         reflexivity]);
    match goal with |- context [c_acceptRequest E ?c ?w] =>
      destruct (c_acceptRequest E c w) as [w4 [[]|t]] end; cbn;
    (do 3 eexists; split; [rewrite <- ?app_assoc; reflexivity|];
     reflexivity).
Qed.

(** With [maxConnections = 0] there is no cap: [acceptCB] never calls the
    evict hook and never deregisters the accept event, however many
    connections there are. *)
Theorem acceptCB_unbounded (s : Sys) :
  cap s = 0%N ->
  List.filter is_evict (new_calls s (fst (acceptCB E s))) = [] /\
  acceptEvent (http (fst (acceptCB E s))) = acceptEvent (http s).
Proof.
  intros Hcap. destruct s as [[cfg ttl prio st ee ae so ba cs] w tr].
  cbn in Hcap.
  assert (Hrun : acceptCB E (mkSys (mkHTTP cfg ttl prio st ee ae so ba cs) w tr)
                 = accept_connection E
                     (mkSys (mkHTTP cfg ttl prio st ee ae so ba cs) w tr)).
  { unfold acceptCB, connection_count, Eff.bind at 1, read at 1, gets.
    cbn [http config fst snd].
    unfold Eff.bind at 1, read at 1, gets. cbn [http connections].
    rewrite Hcap. reflexivity. }
  rewrite Hrun.
  destruct (accept_connection_frame cfg ttl prio st ee ae so ba cs w tr)
    as (cs' & w' & l & -> & Hl).
  split; [|reflexivity].
  unfold new_calls. cbn [trace]. now rewrite drop_app_length.
Qed.

(** [acceptCB] when there is room and a socket arrives. *)
Lemma acceptCB_enter_run (s : Sys) (fd sock : N)
    (peer : IPAddress) (con : @Connection time) (w1 w2 w3 : W) :
  (cap s = 0%N \/ (live_connections s < cap s)%N) ->
  socket (http s) = Some fd ->
  s_accept E fd (world s) = (w1, Returns (Some (peer, sock))) ->
  s_setBuffers E sock w1 = (w2, Returns tt) ->
  c_new E peer sock (sslCtx (config (http s))) w2 = (w3, Returns con) ->
  exists l,
    acceptCB E s =
      (mkSys (set_connections
                (connections (http s) ++ [configured (http s) con]) (http s))
             (fst (c_acceptRequest E (configured (http s) con) w3))
             (trace s ++ l),
       of_outcome (snd (c_acceptRequest E (configured (http s) con) w3))) /\
    outside_calls l =
      [CAccept fd; CSetBuffers sock; CNewConnection peer sock;
       CAcceptRequest (configured (http s) con)].
Proof.
  intros Hroom Hsock Haccept Hbuf Hnew.
  destruct s as [[cfg ttl prio st ee ae so ba cs] w tr].
  cbn in Hroom, Hsock, Haccept, Hbuf, Hnew. subst so.
  unfold configured. cbn [http config priority stats world trace connections].
  set (con' := con_configure (maxHeaderSize cfg) (maxBodySize cfg) prio
                 (readTimeout cfg) (writeTimeout cfg) (isSet st) con).
  assert (Hfull : negb (maxConnections cfg =? 0)%N &&
                  (maxConnections cfg <=? N.of_nat (length cs))%N = false).
  { unfold live_connections in Hroom. cbn in Hroom.
    destruct Hroom as [-> | Hlt]; [reflexivity|].
    apply N.leb_gt in Hlt. rewrite Hlt. apply andb_false_r. }
  unfold acceptCB, connection_count, Eff.bind at 1, read at 1, gets.
  cbn [http config fst snd].
  unfold Eff.bind at 1, read at 1, gets. cbn [http connections].
  rewrite Hfull. unfold Eff.bind at 1, ret.
  unfold accept_connection, Eff.bind, read, gets, deref, call, log, ret,
    LOG_DEBUG, when, update, modify; cbn.
  rewrite Haccept. cbn.
  destruct (debug_enabled E 4); cbn; rewrite Hbuf; cbn; rewrite Hnew; cbn;
    fold con'; destruct (c_acceptRequest E con' w3) as [w4 r4]; cbn;
    (eexists; split; [rewrite <- ?app_assoc; reflexivity | reflexivity]).
Qed.


(** When the socket layer has no socket to give, [acceptCB] logs an error
    and returns; the server is as before, its accept event still
    registered. *)
Theorem acceptCB_null_socket (s : Sys) (fd : N) (w1 : W) :
  (cap s = 0%N \/ (live_connections s < cap s)%N) ->
  socket (http s) = Some fd ->
  s_accept E fd (world s) = (w1, Returns None) ->
  acceptCB E s =
    (mkSys (http s) w1
       (trace s ++ [CAccept fd;
                    CLog LogError [PStr "Failed to accept new socket"]]),
     Ok tt).
Proof.
  intros Hroom Hsock Haccept.
  destruct s as [[cfg ttl prio st ee ae so ba cs] w tr].
  cbn in Hroom, Hsock, Haccept. subst so.
  assert (Hfull : negb (maxConnections cfg =? 0)%N &&
                  (maxConnections cfg <=? N.of_nat (length cs))%N = false).
  { unfold live_connections in Hroom. cbn in Hroom.
    destruct Hroom as [-> | Hlt]; [reflexivity|].
    apply N.leb_gt in Hlt. rewrite Hlt. apply andb_false_r. }
  unfold acceptCB, connection_count, Eff.bind at 1, read at 1, gets.
  cbn [http config fst snd].
  unfold Eff.bind at 1, read at 1, gets. cbn [http connections].
  rewrite Hfull. unfold Eff.bind at 1, ret.
  unfold accept_connection, Eff.bind, read, gets, deref, call, log, ret; cbn.
  rewrite Haccept. cbn. now rewrite <- app_assoc.
Qed.

(** At the cap, a hook that evicts enough makes room: [acceptCB] goes on
    to accept on the list the hook left, and the accept event stays as it
    was. *)
Lemma acceptCB_evict_makes_room (s : Sys) (w' : W)
    (cs' : list (@Connection time)) :
  cap s <> 0%N -> (cap s <= live_connections s)%N ->
  h_evict E (connections (http s)) (world s) = (w', (cs', Returns tt)) ->
  (N.of_nat (length cs') < cap s)%N ->
  acceptCB E s =
    accept_connection E
      (mkSys (set_connections cs' (http s)) w'
             (trace s ++ [CEvict (connections (http s))])) /\
  acceptEvent (http (fst (acceptCB E s))) = acceptEvent (http s).
Proof.
  intros Hcap Hfull Hevict Hroom. unfold live_connections in Hfull.
  destruct s as [[cfg ttl prio st ee ae so ba cs] w tr].
  cbn in Hcap, Hfull, Hevict, Hroom.
  assert (Hrun : acceptCB E (mkSys (mkHTTP cfg ttl prio st ee ae so ba cs) w tr)
                 = accept_connection E
                     (mkSys (mkHTTP cfg ttl prio st ee ae so ba cs') w'
                            (tr ++ [CEvict cs]))).
  { unfold acceptCB, connection_count, Eff.bind at 1, read at 1, gets.
    cbn [http config fst snd].
    unfold Eff.bind at 1, read at 1, gets. cbn [http connections].
    apply N.eqb_neq in Hcap. apply N.leb_le in Hfull.
    rewrite Hcap, Hfull. cbn [negb andb].
    unfold Eff.bind at 1. unfold Eff.bind at 1, evict.
    cbn [http world trace connections]. rewrite Hevict. cbn [of_outcome].
    unfold Eff.bind at 1, read at 1, gets, ret.
    cbn [http set_connections connections fst snd].
    apply N.leb_gt in Hroom. rewrite Hroom. reflexivity. }
  rewrite Hrun. split; [reflexivity|].
  destruct (accept_connection_frame cfg ttl prio st ee ae so ba cs' w'
              (tr ++ [CEvict cs])) as (cs2 & w2 & l & -> & _).
  reflexivity.
Qed.

(** Entering a connection and removing it again gives back the list of
    connections there was, provided the new connection has an address of
    its own; the accept event ends up registered. *)
Theorem accept_then_remove (s : Sys) (fd sock : N) (peer : IPAddress)
    (con : @Connection time) (ev : Event) (w1 w2 w3 w4 : W) :
  (cap s = 0%N \/ (live_connections s < cap s)%N) ->
  socket (http s) = Some fd ->
  acceptEvent (http s) = Some ev ->
  s_accept E fd (world s) = (w1, Returns (Some (peer, sock))) ->
  s_setBuffers E sock w1 = (w2, Returns tt) ->
  c_new E peer sock (sslCtx (config (http s))) w2 = (w3, Returns con) ->
  c_acceptRequest E (configured (http s) con) w3 = (w4, Returns tt) ->
  (forall c, In c (connections (http s)) -> con_ptr c <> con_ptr con) ->
  let s' := fst ((acceptCB E;; remove (configured (http s) con)) s) in
  connections (http s') = connections (http s) /\
  acceptEvent (http s') = Some (ev_add None ev).
Proof.
  intros Hroom Hsock Hev Haccept Hbuf Hnew Hreq Hfresh s'.
  destruct (@acceptCB_enter_run s fd sock peer con w1 w2 w3
              Hroom Hsock Haccept Hbuf Hnew) as (l & Hrun & _).
  subst s'. unfold Eff.bind. rewrite Hrun, Hreq. cbn [fst snd of_outcome].
  destruct s as [[cfg ttl prio st ee ae so ba cs] w tr].
  cbn in Hev, Hfresh. subst ae.
  unfold set_connections.
  cbn [http config maxConnectionTTL priority stats expireEvent acceptEvent
       socket boundAddr connections world trace].
  rewrite HTTPSpec.remove_run. cbn [fst http connections acceptEvent].
  split; [|reflexivity].
  rewrite List.filter_app. cbn. rewrite N.eqb_refl. cbn.
  rewrite app_nil_r. apply forallb_filter_id.
  apply forallb_forall. intros c Hin. apply negb_true_iff.
  apply N.eqb_neq. now apply Hfresh.
Qed.

Lemma filter_twice {A} (p : A -> bool) (l : list A) :
  List.filter p (List.filter p l) = List.filter p l.
Proof.
  apply forallb_filter_id. apply forallb_forall.
  intros x Hx. now apply filter_In in Hx.
Qed.

Lemma filter_none {A} (p : A -> bool) (l : list A) :
  List.filter p (List.filter (fun x => negb (p x)) l) = [].
Proof.
  induction l as [|a l IH]; [reflexivity|]. cbn.
  destruct (p a) eqn:Hp; cbn; [assumption|]. now rewrite Hp.
Qed.

(** [expireCB] changes the connection list and the statistics and nothing
    else: it always returns, and the accept event, the expire event and
    the settings are as before.  In particular it does not register the
    accept event again when it has made room, as [remove] does. *)
Theorem expireCB_keeps_events (s : Sys) :
  let s' := fst (expireCB time_sub time_lt of_unsigned E s) in
  snd (expireCB time_sub time_lt of_unsigned E s) = Ok tt /\
  acceptEvent (http s') = acceptEvent (http s) /\
  expireEvent (http s') = expireEvent (http s) /\
  maxConnectionTTL (http s') = maxConnectionTTL (http s) /\
  priority (http s') = priority (http s) /\
  socket (http s') = socket (http s) /\
  boundAddr (http s') = boundAddr (http s) /\
  config (http s') = config (http s) /\
  world s' = world s.
Proof.
  intros s'. subst s'. destruct s as [[cfg ttl prio st ee ae so ba cs] w tr].
  destruct (HTTPSpec.expireCB_run time_sub time_lt of_unsigned E
              cfg ttl prio st ee ae so ba cs w tr) as (tr' & ->).
  repeat split.
Qed.

(** Running [expireCB] again at the same clock reading changes nothing
    more: no further connection goes and no further "timedout" event is
    counted. *)
Theorem expireCB_twice (s : Sys) :
  let s1 := fst (expireCB time_sub time_lt of_unsigned E s) in
  http (fst (expireCB time_sub time_lt of_unsigned E s1)) = http s1.
Proof.
  intros s1. subst s1. destruct s as [[cfg ttl prio st ee ae so ba cs] w tr].
  destruct (HTTPSpec.expireCB_run time_sub time_lt of_unsigned E
              cfg ttl prio st ee ae so ba cs w tr) as (tr' & ->).
  cbn [fst].
  match goal with |- context [mkSys (mkHTTP _ _ _ ?st1 _ _ _ _ ?cs1) _ _] =>
    destruct (HTTPSpec.expireCB_run time_sub time_lt of_unsigned E
                cfg ttl prio st1 ee ae so ba cs1 w tr') as (tr2 & ->) end.
  cbn [fst http]. rewrite filter_twice, filter_none. reflexivity.
Qed.

End Connections.
(** Witness: the handler throws a 418 exception and the reply made for it
    throws in turn. *)
Lemma dispatch_one_reply_per_throw_witness :
  replies
    (new_calls Examples.sys0
       (fst (dispatch Examples.env_reply_throws Examples.request1
               Examples.sys0)))
  = [CReply Examples.request1 418].
Proof.
  apply (@dispatch_one_reply_per_throw Z N Examples.env_reply_throws
           Examples.request1 Examples.sys0
           (ThrowException Examples.teapot) 0%N).
  reflexivity.
Defined.

(** Witness: the server just constructed is bound to [localhost]; a second
    bind, to another port, throws. *)
Lemma bind_once_witness :
  socket (http (fst (HTTP.bind Examples.env_no_evict Examples.localhost
                       Examples.sys0))) = Some 3%N /\
  exists e,
    snd (HTTP.bind Examples.env_no_evict (mkIP 2130706433 8081)
           (fst (HTTP.bind Examples.env_no_evict Examples.localhost
                   Examples.sys0)))
    = Raise (ThrowException e) /\
    message e = "Already bound".
Proof.
  destruct (@bind_once Z N Examples.env_no_evict Examples.localhost
              (mkIP 2130706433 8081) Examples.sys0 3%N 0%N)
    as (_ & Hsock & _ & _ & _ & e & Hsecond & Hmsg).
  - reflexivity.
  - reflexivity.
  - split; [exact Hsock|]. exists e. now rewrite Hsecond.
Defined.

(** Witness: the address is in use. *)
Lemma bind_failure_leaves_unbound_witness :
  snd (HTTP.bind Scenarios.env_listen_fails Examples.localhost Examples.sys0)
    = Raise (ThrowStd "Address already in use") /\
  http (fst (HTTP.bind Scenarios.env_listen_fails Examples.localhost
               Examples.sys0)) = http Examples.sys0.
Proof.
  apply (@bind_failure_leaves_unbound Z N Scenarios.env_listen_fails
           Examples.localhost Examples.sys0
           (ThrowStd "Address already in use") 0%N).
  - reflexivity.
  - reflexivity.
Defined.

(** Witness: a TTL of 30 is taken back. *)
Lemma setMaxConnectionTTL_zero_iff_witness :
  snd (@setMaxConnectionTTL Z N 0 Scenarios.sys_ttl) = Ok tt /\
  exists ev,
    expireEvent (http (fst (@setMaxConnectionTTL Z N 0 Scenarios.sys_ttl)))
      = Some (ev_del ev) /\
    ev_pending ev = true.
Proof.
  destruct (@setMaxConnectionTTL_zero_iff Z N Scenarios.sys_ttl)
    as (Hiff & Hev).
  split.
  - apply Hiff. reflexivity.
  - eexists. split.
    + apply Hev. reflexivity.
    + reflexivity.
Defined.

(** Witness: priority 2 and a TTL of 30 on the server just constructed. *)
Lemma priority_ttl_commute_witness :
  (@setEventPriority Z N 2;; setMaxConnectionTTL 30) Examples.sys0 =
  (setMaxConnectionTTL 30;; @setEventPriority Z N 2) Examples.sys0.
Proof.
  apply (@priority_ttl_commute Z N 2%Z 30%N Examples.sys0); lia.
Defined.

(** Witness: three connections and no cap. *)
Lemma acceptCB_unbounded_witness :
  List.filter is_evict
    (new_calls Scenarios.sys_uncapped
       (fst (acceptCB Examples.env_no_evict Scenarios.sys_uncapped))) = [] /\
  acceptEvent (http (fst (acceptCB Examples.env_no_evict
                            Scenarios.sys_uncapped)))
    = Some Examples.accept_event.
Proof.
  apply (@acceptCB_unbounded Z N Examples.env_no_evict
           Scenarios.sys_uncapped).
  reflexivity.
Defined.


(** Witness: nothing to accept. *)
Lemma acceptCB_null_socket_witness :
  http (fst (acceptCB Scenarios.env_no_socket Scenarios.sys_one))
    = http Scenarios.sys_one /\
  snd (acceptCB Scenarios.env_no_socket Scenarios.sys_one) = Ok tt.
Proof.
  rewrite (@acceptCB_null_socket Z N Scenarios.env_no_socket
             Scenarios.sys_one 3%N 1%N).
  - split; reflexivity.
  - right. reflexivity.
  - reflexivity.
  - reflexivity.
Defined.

(** Witness: the second connection comes and goes. *)
Lemma accept_then_remove_witness :
  connections
    (http (fst ((acceptCB Examples.env_no_evict;;
                 remove
                   (configured (http Scenarios.sys_one)
                      (mkConnection 1 (mkIP 2130706433 40000) 7 100%Z false
                         0 0 None 0 0 false)))
                  Scenarios.sys_one)))
  = [Examples.connection 0 80].
Proof.
  destruct (@accept_then_remove Z N Examples.env_no_evict Scenarios.sys_one
              3%N 7%N (mkIP 2130706433 40000)
              (mkConnection 1 (mkIP 2130706433 40000) 7 100%Z false 0 0
                 None 0 0 false) Examples.accept_event 1%N 1%N 2%N 2%N)
    as (Hcons & _).
  - right. reflexivity.
  - reflexivity.
  - reflexivity.
  - reflexivity.
  - reflexivity.
  - reflexivity.
  - reflexivity.
  - intros c [<- | []]. cbn. lia.
  - exact Hcons.
Defined.

End HTTPMore.

(** ** More on the worker pool *)

Module PoolMore.
Import ConcurrentPool PoolObs.

Section Pool.

Context {W : Type}.
Variable E : @Env W.

Abbreviation Sys := (@Sys W).

Lemma relock_undisturbed (s : Sys) :
  undisturbed E ->
  fst (relock E s) = mkSys (pool s) (world s) (trace s).
Proof.
  intros Hu. unfold relock, modify. cbn. now rewrite Hu.
Qed.

(** One pass of the worker, case by case. *)
Lemma run_body_cases (s : Sys) :
  let s1 := fst (relock E s) in
  run_body E s =
    if shouldShutdown E (world s1) then (s1, Ok false)
    else match queue_take (ready (pool s1)) with
         | None => (s1, Ok true)
         | Some (task, q') => (after_task E s1 task q', Ok true)
         end.
Proof.
  intros s1.
  destruct (shouldShutdown E (world s1)) eqn:Hshut.
  - unfold run_body. unfold Eff.bind at 1. rewrite PoolSpec.relock_run.
    fold s1. unfold Eff.bind at 1, gets. now rewrite Hshut.
  - destruct (queue_take (ready (pool s1))) as [[task q']|] eqn:Htake.
    + now apply PoolSpec.run_body_task.
    + unfold run_body. unfold Eff.bind at 1. rewrite PoolSpec.relock_run.
      fold s1. unfold Eff.bind at 1, gets. rewrite Hshut.
      unfold Eff.bind at 1, read at 1, gets. now rewrite Htake.
Qed.

(** The worker loop, one pass unrolled. *)
Lemma run_S (fuel : nat) (s : Sys) :
  run E (S fuel) s =
    if shouldShutdown E (world s) then (s, Ok Finished)
    else
      let s1 := fst (relock E s) in
      if shouldShutdown E (world s1) then (s1, Ok Finished)
      else match queue_take (ready (pool s1)) with
           | None => run E fuel s1
           | Some (task, q') => run E fuel (after_task E s1 task q')
           end.
Proof.
  cbn [run]. unfold Eff.bind at 1, gets.
  destruct (shouldShutdown E (world s)); [reflexivity|].
  unfold Eff.bind at 1. rewrite run_body_cases. cbv zeta.
  destruct (shouldShutdown E (world (fst (relock E s)))); [reflexivity|].
  destruct (queue_take (ready (pool (fst (relock E s))))) as [[task q']|];
    reflexivity.
Qed.

(** A worker that is told to shut down takes no further task: seen before
    the wait, the flag ends the loop with everything as it was; seen after
    the wait, it ends the loop with the ready queue as the wait left it,
    whatever is waiting there. *)
Theorem run_stops_on_shutdown (fuel : nat) (s : Sys) :
  (shouldShutdown E (world s) = true ->
   run E (S fuel) s = (s, Ok Finished)) /\
  (shouldShutdown E (world s) = false ->
   shouldShutdown E (world (fst (relock E s))) = true ->
   run E (S fuel) s = (fst (relock E s), Ok Finished)).
Proof.
  split.
  - intros Hs. now rewrite run_S, Hs.
  - intros Hs Hs1. rewrite run_S, Hs. cbv zeta. now rewrite Hs1.
Qed.

Lemma held_after_task (s1 : Sys) (task : Task) (q' : list Task) :
  undisturbed E ->
  queue_take (ready (pool s1)) = Some (task, q') ->
  Permutation (held (pool (after_task E s1 task q'))) (held (pool s1)) /\
  ready (pool (after_task E s1 task q')) = q' /\
  length (completed (pool (after_task E s1 task q')))
    = S (length (completed (pool s1))) /\
  activations (pool (after_task E s1 task q'))
    = S (activations (pool s1)).
Proof.
  intros Hu Htake. apply PoolSpec.queue_take_Some in Htake.
  unfold after_task. rewrite Hu. cbn.
  unfold held. cbn. unfold queue_push.
  split; [|split; [reflexivity|split; [|reflexivity]]].
  - rewrite !map_app, Htake. cbn.
    assert (Hid : task_id (captured_by (snd (t_run E task (world s1))) task)
                  = task_id task).
    { destruct (snd (t_run E task (world s1))) as [[]|[e|what|]];
        reflexivity. }
    rewrite Hid, app_assoc.
    apply (Permutation_app_comm _ [task_id task]).
  - rewrite length_app. cbn. lia.
Qed.

(** With no other thread at the queues, the worker loop neither loses nor
    duplicates a task: however long it runs and whatever the tasks throw,
    the tasks in the ready and completed queues together are the ones
    there were. *)
Theorem worker_conserves_tasks (fuel : nat) (s : Sys) :
  undisturbed E ->
  Permutation (held (pool (fst (run E fuel s)))) (held (pool s)).
Proof.
  intros Hu. revert s. induction fuel as [|fuel IH]; intros s.
  - reflexivity.
  - rewrite run_S. destruct (shouldShutdown E (world s)); [reflexivity|].
    cbv zeta. rewrite (relock_undisturbed s Hu). cbn [world pool].
    destruct (shouldShutdown E (world s)); [reflexivity|].
    destruct (queue_take (ready (pool s))) as [[task q']|] eqn:Htake.
    + rewrite IH.
      now destruct (@held_after_task (mkSys (pool s) (world s) (trace s))
                      task q' Hu Htake) as (Hheld & _).
    + now rewrite IH.
Qed.

(** A pool that is never shut down and has its queues to itself works
    through the ready queue: given as many passes as there are ready
    tasks, the worker leaves the ready queue empty, has put every one of
    them on the completed queue and has activated the event once for
    each. *)
Theorem run_drains_ready (fuel : nat) (s : Sys) :
  undisturbed E -> never_shutdown E ->
  (getNumReady (pool s) <= fuel)%nat ->
  let p' := pool (fst (run E fuel s)) in
  getNumReady p' = 0%nat /\
  getNumCompleted p' = (getNumCompleted (pool s) + getNumReady (pool s))%nat /\
  activations p' = (activations (pool s) + getNumReady (pool s))%nat.
Proof.
  intros Hu Hnever Hfuel p'. subst p'.
  unfold getNumReady, getNumCompleted in *.
  revert s Hfuel. induction fuel as [|fuel IH]; intros s Hfuel.
  - cbn [run]. unfold ret. cbn [fst].
    destruct (ready (pool s)); cbn in *; [|lia].
    repeat split; lia.
  - rewrite run_S, Hnever. cbv zeta.
    rewrite (relock_undisturbed s Hu). cbn [world pool]. rewrite Hnever.
    destruct (queue_take (ready (pool s))) as [[task q']|] eqn:Htake.
    + destruct (@held_after_task (mkSys (pool s) (world s) (trace s))
                  task q' Hu Htake) as (_ & Hready & Hdone & Hact).
      cbn [pool] in Hready, Hdone, Hact.
      apply PoolSpec.queue_take_Some in Htake.
      pose proof (Permutation_length Htake) as Hlen. cbn in Hlen.
      match goal with |- context [run E fuel ?x] =>
        destruct (IH x) as (H1 & H2 & H3) end.
      { rewrite Hready. lia. }
      rewrite H1, H2, H3, Hready, Hdone, Hact. repeat split; lia.
    + apply PoolSpec.queue_take_None in Htake.
      match goal with |- context [run E fuel ?x] =>
        destruct (IH x) as (H1 & H2 & H3) end.
      { cbn. rewrite Htake. cbn. lia. }
      cbn [pool] in H1, H2, H3. rewrite H1, H2, H3, Htake. cbn.
      repeat split; lia.
Qed.

(** From [submit] to the callbacks, on a pool with empty queues and no
    other thread: the worker takes the submitted task, runs it and hands it
    over, and the reactor-side drain then calls [success] if [run()]
    returned (and the task had not failed before), [error] with what was
    captured if [run()] threw, and [complete] in either case; the completed
    queue is empty again. *)
Theorem submitted_task_called_back (s : Sys) (t : Task) :
  undisturbed E ->
  ready (pool s) = [] -> completed (pool s) = [] ->
  shouldShutdown E (world s) = false ->
  let s1 := fst (submit t s) in
  let s2 := fst (run_body E s1) in
  let out := complete E 2 s2 in
  snd (run_body E s1) = Ok true /\
  snd out = Ok Finished /\
  callbacks (new_calls s2 (fst out)) =
    task_callbacks (captured_by (snd (t_run E t (world s))) t) /\
  completed (pool (fst out)) = [].
Proof.
  intros Hu Hready Hdone Hshut s1 s2 out. subst out s2 s1.
  assert (Hsub : fst (submit t s)
                 = mkSys (set_ready [t] (pool s)) (world s) (trace s)).
  { unfold submit, Eff.bind, read, gets, update, modify.
    cbn. now rewrite Hready. }
  rewrite Hsub.
  set (s1 := mkSys (set_ready [t] (pool s)) (world s) (trace s)).
  assert (Hbody : run_body E s1 = (after_task E s1 t [], Ok true)).
  { rewrite run_body_cases. cbv zeta.
    rewrite (relock_undisturbed s1 Hu). subst s1.
    cbn [world pool ready set_ready trace]. rewrite Hshut. reflexivity. }
  rewrite Hbody. cbn [fst snd].
  split; [reflexivity|].
  set (s2 := after_task E s1 t []).
  assert (Hq : completed (pool s2) =
               [captured_by (snd (t_run E t (world s))) t]).
  { subst s2 s1. unfold after_task. rewrite Hu. cbn. now rewrite Hdone. }
  destruct (PoolSpec.complete_drains E 2 s2)
    as (s' & r & ts & l & Hrun & Hl & Hcb & Hfin & _ & Hall).
  destruct (Hall Hu) as (-> & Hperm); [rewrite Hq; cbn; lia|].
  rewrite Hq in Hperm. apply Permutation_sym in Hperm.
  apply Permutation_length_1_inv in Hperm. subst ts.
  rewrite Hrun. cbn [fst snd].
  split; [reflexivity|]. split; [|now apply Hfin].
  rewrite (@PoolSpec.pool_new_calls_app _ _ _ _ Hl), Hcb.
  cbn [flat_map]. now rewrite app_nil_r.
Qed.

End Pool.
(** Witness: the flag is up before the wait; the flag goes up during the
    wait.  Two tasks are ready and stay so. *)
Lemma run_stops_on_shutdown_witness :
  run Scenarios.pool_env_stopping 1 (Scenarios.pool_stopping true)
    = (Scenarios.pool_stopping true, Ok Finished) /\
  ready (pool (fst (run Scenarios.pool_env_stopping 1
                      (Scenarios.pool_stopping false))))
    = [Examples.task 4 0; Examples.task 2 5].
Proof.
  destruct (@run_stops_on_shutdown bool Scenarios.pool_env_stopping 0
              (Scenarios.pool_stopping true)) as (Hbefore & _).
  destruct (@run_stops_on_shutdown bool Scenarios.pool_env_stopping 0
              (Scenarios.pool_stopping false)) as (_ & Hduring).
  split.
  - apply Hbefore. reflexivity.
  - rewrite Hduring; reflexivity.
Defined.

(** Witness: five passes over two ready tasks, one of which throws. *)
Lemma worker_conserves_tasks_witness :
  Permutation
    (held (pool (fst (run (Examples.pool_env true) 5 Examples.pool_ready))))
    [4%N; 2%N].
Proof.
  apply (@worker_conserves_tasks unit (Examples.pool_env true) 5
           Examples.pool_ready).
  intros w p. reflexivity.
Defined.

(** Witness: two passes over two ready tasks. *)
Lemma run_drains_ready_witness :
  getNumReady
    (pool (fst (run (Examples.pool_env true) 2 Examples.pool_ready)))
    = 0%nat /\
  getNumCompleted
    (pool (fst (run (Examples.pool_env true) 2 Examples.pool_ready)))
    = 2%nat /\
  activations
    (pool (fst (run (Examples.pool_env true) 2 Examples.pool_ready)))
    = 2%nat.
Proof.
  apply (@run_drains_ready unit (Examples.pool_env true) 2
           Examples.pool_ready).
  - intros w p. reflexivity.
  - intros w. reflexivity.
  - cbn. lia.
Defined.

(** Witness: task 1, whose [run()] throws a [cb::Exception]. *)
Lemma submitted_task_called_back_witness :
  let s1 := fst (submit (Examples.task 1 0) Scenarios.pool_idle) in
  let s2 := fst (run_body (Examples.pool_env true) s1) in
  callbacks (new_calls s2 (fst (complete (Examples.pool_env true) 2 s2))) =
    [CError (setException
               (CapturedException (mkException "disk full" 507))
               (Examples.task 1 0))
            (Some (CapturedException (mkException "disk full" 507)));
     CComplete (setException
                  (CapturedException (mkException "disk full" 507))
                  (Examples.task 1 0))].
Proof.
  destruct (@submitted_task_called_back unit (Examples.pool_env true)
              Scenarios.pool_idle (Examples.task 1 0))
    as (_ & _ & Hcalls & _).
  - intros w p. reflexivity.
  - reflexivity.
  - reflexivity.
  - reflexivity.
  - exact Hcalls.
Defined.

End PoolMore.

(** ** More on options *)

Module OptionMore.
Import Option OptionOps.

(** *** Flag arithmetic on [uint32_t] *)

Lemma testbit_lnot32 (x i : N) :
  N.testbit (lnot32 x) i = xorb (N.testbit x i) (i <? 32)%N.
Proof.
  unfold lnot32. change (2 ^ 32 - 1)%N with (N.ones 32).
  rewrite N.lxor_spec. f_equal.
  destruct (i <? 32)%N eqn:Hi.
  - apply N.ltb_lt in Hi. now apply N.ones_spec_low.
  - apply N.ltb_ge in Hi. now apply N.ones_spec_high.
Qed.

Lemma testbit_uint32 (x i : N) :
  (x < 2 ^ 32)%N -> N.testbit x i = true -> (i <? 32)%N = true.
Proof.
  intros Hx Hbit. apply N.ltb_lt.
  destruct (N.lt_ge_cases i 32) as [Hlt | Hge]; [assumption|].
  rewrite <- (N.mod_small x (2 ^ 32)) in Hbit by assumption.
  rewrite N.mod_pow2_bits_high in Hbit by assumption. discriminate.
Qed.

(** Clearing the bits of [m] clears every flag contained in [m]. *)
Lemma flag_cleared (f m F : N) :
  (F < 2 ^ 32)%N -> N.land F m = F ->
  N.land (N.land f (lnot32 m)) F = 0%N.
Proof.
  intros HF Hsub. apply N.bits_inj. intros i.
  rewrite !N.land_spec, testbit_lnot32, N.bits_0.
  destruct (N.testbit F i) eqn:HFi; [|apply andb_false_r].
  rewrite (@testbit_uint32 _ _ HF HFi).
  assert (Hm : N.testbit m i = true).
  { rewrite <- Hsub in HFi. rewrite N.land_spec in HFi.
    now apply andb_true_iff in HFi. }
  rewrite Hm. cbn. now rewrite andb_false_r.
Qed.

(** Setting the bits of [S] and clearing those of [C] leaves [S] set when
    the two have no bit in common. *)
Lemma flag_kept (f S C : N) :
  (S < 2 ^ 32)%N -> N.land S C = 0%N ->
  N.land (N.land (N.lor f S) (lnot32 C)) S = S.
Proof.
  intros HS Hdisj. apply N.bits_inj. intros i.
  rewrite !N.land_spec, N.lor_spec, testbit_lnot32.
  destruct (N.testbit S i) eqn:HSi; [|apply andb_false_r].
  rewrite (@testbit_uint32 _ _ HS HSi).
  assert (HC : N.testbit C i = false).
  { assert (H : N.testbit (N.land S C) i = false)
      by (rewrite Hdisj; apply N.bits_0).
    rewrite N.land_spec, HSi in H. exact H. }
  rewrite HC, orb_true_r. reflexivity.
Qed.

(** *** Strings *)

Lemma append_assoc (a b c : string) :
  (a +:+ b) +:+ c = a +:+ (b +:+ c).
Proof.
  induction a as [|x a IH]; [reflexivity|].
  change (String x ((a +:+ b) +:+ c) = String x (a +:+ (b +:+ c))).
  now rewrite IH.
Qed.

Lemma append_nil_r (a : string) : a +:+ "" = a.
Proof.
  induction a as [|x a IH]; [reflexivity|].
  change (String x (a +:+ "") = String x a). now rewrite IH.
Qed.

Lemma length_append (a b : string) :
  String.length (a +:+ b) = (String.length a + String.length b)%nat.
Proof.
  induction a as [|x a IH]; [reflexivity|].
  change (S (String.length (a +:+ b))
          = S (String.length a + String.length b)).
  now rewrite IH.
Qed.

(** The loop of [set(const strings_t &)] from index [length pre] on, where
    [pre] is the part of the vector already passed. *)
Lemma join_from_spec (rest pre : list string) (value : string) :
  pre <> [] ->
  join_from (pre ++ rest) (length pre) (length rest) value =
    if (length pre =? 1)%nat then value +:+ String.concat " " rest
    else value +:+ match rest with
                   | [] => ""
                   | _ => " " +:+ String.concat " " rest
                   end.
Proof.
  revert pre value. induction rest as [|x rest IH]; intros pre value Hpre.
  - cbn. destruct (length pre =? 1)%nat; now rewrite append_nil_r.
  - cbn [length join_from].
    replace (nth (length pre) (pre ++ x :: rest) "") with x
      by (now rewrite app_nth2, Nat.sub_diag by lia).
    replace (pre ++ x :: rest) with ((pre ++ [x]) ++ rest)
      by (now rewrite <- app_assoc).
    replace (S (length pre)) with (length (pre ++ [x]))
      by (rewrite length_app; cbn; lia).
    rewrite IH by (now destruct pre).
    assert (Hlen : (length (pre ++ [x]) =? 1)%nat = false).
    { apply Nat.eqb_neq. rewrite length_app. cbn.
      destruct pre; [congruence | cbn; lia]. }
    rewrite Hlen.
    destruct (length pre =? 1)%nat; destruct rest as [|y rest];
      cbn [String.concat]; rewrite ?append_assoc, ?append_nil_r;
      reflexivity.
Qed.

Section Option.

Variable DEFAULT_SET_FLAG SET_FLAG OPTIONAL_FLAG COMMAND_LINE_FLAG : N.
Context {D W : Type}.
Variable E : @Env D W.

Abbreviation Sys := (@Option.Sys W).
Abbreviation set' :=
  (set DEFAULT_SET_FLAG SET_FLAG OPTIONAL_FLAG COMMAND_LINE_FLAG E).
Abbreviation validate' := (validate DEFAULT_SET_FLAG SET_FLAG E).
Abbreviation toString' := (toString DEFAULT_SET_FLAG SET_FLAG).
Abbreviation getDefault' := (getDefault DEFAULT_SET_FLAG SET_FLAG).
Abbreviation hasValue' := (hasValue DEFAULT_SET_FLAG SET_FLAG).
Abbreviation hasDefault' := (hasDefault DEFAULT_SET_FLAG SET_FLAG).
Abbreviation candidate' := (candidate SET_FLAG COMMAND_LINE_FLAG).

Lemma hasValue_unfold (o : Option) :
  hasValue' o = isSet SET_FLAG o || hasDefault' o.
Proof. destruct o; reflexivity. Qed.

Lemma getDefault_unfold (o : Option) :
  getDefault' o =
    if has_flag DEFAULT_SET_FLAG o then Ok (defaultValue o)
    else match parent o with
         | Some p => if hasValue' p then toString' p
                     else Ok (defaultValue o)
         | None => Ok (defaultValue o)
         end.
Proof. destruct o; reflexivity. Qed.

Lemma toString_returns :
  forall o, hasValue' o = true -> exists v, toString' o = Ok v.
Proof.
  fix IH 1. intros [n ty h f v d [p|] a c] Hv.
  - rewrite hasValue_unfold in Hv. unfold toString, toString_with.
    destruct (isSet SET_FLAG _) eqn:Hset; [eexists; reflexivity|].
    cbn [orb] in Hv. rewrite Hv. rewrite getDefault_unfold.
    unfold hasDefault in Hv. cbn [parent] in Hv |- *.
    destruct (has_flag DEFAULT_SET_FLAG _); [eexists; reflexivity|].
    cbn [orb] in Hv. rewrite Hv. apply IH. exact Hv.
  - rewrite hasValue_unfold in Hv. unfold toString, toString_with.
    destruct (isSet SET_FLAG _) eqn:Hset; [eexists; reflexivity|].
    cbn [orb] in Hv. rewrite Hv. rewrite getDefault_unfold.
    cbn [parent]. destruct (has_flag DEFAULT_SET_FLAG _);
      eexists; reflexivity.
Qed.

Lemma getDefault_returns (o : Option) :
  hasDefault' o = true -> exists d, getDefault' o = Ok d.
Proof.
  intros Hd. rewrite getDefault_unfold. unfold hasDefault in Hd.
  destruct (has_flag DEFAULT_SET_FLAG o); [eexists; reflexivity|].
  cbn [orb] in Hd. destruct (parent o) as [p|]; [|discriminate].
  rewrite Hd. now apply toString_returns.
Qed.

(** An option that has a value can be read: [toString] returns for it,
    all the way up a chain of proxies, and [getDefault] returns for an
    option that has a default.  Without a value, [toString] throws, unless
    the option is a list of strings, which then reads as its (empty)
    value. *)
Theorem toString_of_hasValue (o : Option) :
  (hasValue' o = true -> exists v, toString' o = Ok v) /\
  (hasDefault' o = true -> exists d, getDefault' o = Ok d) /\
  (hasValue' o = false ->
   toString' o = match type o with
                 | STRINGS_TYPE => Ok (value o)
                 | _ => Raise (no_value o)
                 end).
Proof.
  split; [apply toString_returns|]. split; [apply getDefault_returns|].
  intros Hv. rewrite hasValue_unfold in Hv.
  apply orb_false_iff in Hv. destruct Hv as (Hset & Hdef).
  unfold toString, toString_with. now rewrite Hset, Hdef.
Qed.

Lemma land_absorb_l (a b : N) : N.land a (N.lor a b) = a.
Proof.
  apply N.bits_inj. intros i. rewrite N.land_spec, N.lor_spec.
  destruct (N.testbit a i); reflexivity.
Qed.

Lemma land_absorb_r (a b : N) : N.land b (N.lor a b) = b.
Proof. rewrite N.lor_comm. apply land_absorb_l. Qed.

(** A proxy just made is not set and has no default of its own; it has a
    value exactly when its parent has one, and then reads as the parent
    does.  It does not take over the parent's constraint. *)
Theorem proxy_reads_parent (p : Option) :
  (SET_FLAG < 2 ^ 32)%N -> (DEFAULT_SET_FLAG < 2 ^ 32)%N ->
  let q := proxy DEFAULT_SET_FLAG SET_FLAG p in
  isSet SET_FLAG q = false /\
  hasValue' q = hasValue' p /\
  (hasValue' p = true -> toString' q = toString' p) /\
  constraint q = None.
Proof.
  intros HS HD q.
  assert (Hset : isSet SET_FLAG q = false).
  { unfold isSet, has_flag. subst q. cbn [proxy flags].
    rewrite flag_cleared; [reflexivity | assumption | apply land_absorb_l]. }
  assert (Hdef : has_flag DEFAULT_SET_FLAG q = false).
  { unfold has_flag. subst q. cbn [proxy flags].
    rewrite flag_cleared; [reflexivity | assumption | apply land_absorb_r]. }
  assert (Hval : hasValue' q = hasValue' p).
  { rewrite hasValue_unfold, Hset. unfold hasDefault. rewrite Hdef.
    reflexivity. }
  split; [assumption|]. split; [assumption|]. split; [|reflexivity].
  intros Hp. unfold toString at 1, toString_with. rewrite Hset.
  assert (Hd : hasDefault' q = true).
  { rewrite hasValue_unfold, Hset in Hval. cbn [orb] in Hval. congruence. }
  rewrite Hd, getDefault_unfold, Hdef. subst q. cbn [proxy parent].
  now rewrite Hp.
Qed.

(** *** [set] *)

Lemma set_unchanged (v : string) (s : Sys) :
  unchanged_by SET_FLAG v (this s) = true -> set' v s = (s, Ok tt).
Proof.
  intros H. unfold set, Eff.bind at 1, get. unfold unchanged_by in H.
  now rewrite H.
Qed.

(** [set] up to the outcome of [validate()]. *)
Lemma set_validates (v : string) (s : Sys) :
  unchanged_by SET_FLAG v (this s) = false ->
  set' v s =
    match validate' (candidate' v (this s)) with
    | Ok _ =>
        run_action E (mkSys (candidate' v (this s)) (warnWhenInvalid s)
                            (world s) (trace s))
    | Raise (ThrowException e) =>
        if warnWhenInvalid s then
          run_action E
            (mkSys (this s) (warnWhenInvalid s) (world s)
               (trace s ++
                [CLogWarning (("Invalid value for option '" +:+
                               name (this s) +:+ "'") +:+ ": " +:+
                              message e)]))
        else
          match printHelp DEFAULT_SET_FLAG SET_FLAG OPTIONAL_FLAG E
                  (this s) (world s) with
          | Ok text =>
              (mkSys (this s) (warnWhenInvalid s) (world s) (trace s),
               Raise (ThrowException
                        (chain E (("Invalid value for option '" +:+
                                   name (this s) +:+ "'") +:+
                                  ".  Option help:" +:+ String "010" text)
                               e)))
          | Raise t =>
              (mkSys (this s) (warnWhenInvalid s) (world s) (trace s),
               Raise t)
          | NullDeref =>
              (mkSys (this s) (warnWhenInvalid s) (world s) (trace s),
               NullDeref)
          end
    | Raise t =>
        (mkSys (candidate' v (this s)) (warnWhenInvalid s) (world s)
               (trace s), Raise t)
    | NullDeref =>
        (mkSys (candidate' v (this s)) (warnWhenInvalid s) (world s)
               (trace s), NullDeref)
    end.
Proof.
  intros Hskip. destruct s as [o warn w tr]. cbn [this warnWhenInvalid
    world trace] in *.
  unfold set, Eff.bind at 1, get. cbn [this].
  unfold unchanged_by in Hskip. rewrite Hskip.
  unfold candidate. destruct o as [n ty h f v0 d p a c].
  do 3 (unfold Eff.bind at 1, update at 1, modify;
        cbn [this warnWhenInvalid world trace]).
  unfold Eff.bind at 1, try_catch, lift. cbn [this].
  unfold set_flags, set_value.
  cbn [name type help flags value defaultValue parent action constraint].
  match goal with |- context [validate' ?x] =>
    destruct (validate' x) as [[]|[e|what|]|] end; try reflexivity.
  unfold Eff.bind, update, modify, read, gets, raise, LOG_WARNING. cbn.
  destruct warn; [reflexivity|].
  destruct (printHelp _ _ _ _ _ _); reflexivity.
Qed.

Lemma candidate_isSet (v : string) (o : Option) :
  (SET_FLAG < 2 ^ 32)%N -> SET_FLAG <> 0%N ->
  N.land SET_FLAG COMMAND_LINE_FLAG = 0%N ->
  isSet SET_FLAG (candidate' v o) = true /\ value (candidate' v o) = v.
Proof.
  intros HS Hnz Hdisj. destruct o as [n ty h f v0 d p a c].
  unfold candidate, isSet, has_flag, set_flags, set_value. cbn.
  rewrite flag_kept by assumption.
  split; [|reflexivity]. apply negb_true_iff. now apply N.eqb_neq.
Qed.

(** A value that passes validation is stored: the option is then set,
    reads back as that value, and the action, if there is one, runs on the
    option holding the new value. *)
Theorem set_then_toString (v : string) (s : Sys) :
  (SET_FLAG < 2 ^ 32)%N -> SET_FLAG <> 0%N ->
  N.land SET_FLAG COMMAND_LINE_FLAG = 0%N ->
  unchanged_by SET_FLAG v (this s) = false ->
  validate' (candidate' v (this s)) = Ok tt ->
  set' v s =
    run_action E (mkSys (candidate' v (this s)) (warnWhenInvalid s)
                        (world s) (trace s)) /\
  isSet SET_FLAG (candidate' v (this s)) = true /\
  toString' (candidate' v (this s)) = Ok v /\
  (action (this s) = None ->
   this (fst (set' v s)) = candidate' v (this s) /\
   snd (set' v s) = Ok tt).
Proof.
  intros HS Hnz Hdisj Hskip Hval.
  destruct (candidate_isSet v (this s) HS Hnz Hdisj) as (Hset & Hv).
  pose proof (set_validates v s Hskip) as Hrun. rewrite Hval in Hrun.
  split; [assumption|]. split; [assumption|]. split.
  - unfold toString, toString_with. now rewrite Hset, Hv.
  - intros Hact. rewrite Hrun. unfold run_action. cbn [this].
    replace (action (candidate' v (this s))) with (@None N)
      by (destruct (this s); cbn in *; congruence).
    split; reflexivity.
Qed.

(** Setting the value an option already holds does nothing: once a [set]
    has stored [v] (and the action has left the option alone), a second
    [set] of [v] returns at once, without validating and without invoking
    the action again. *)
Theorem set_twice (v : string) (s : Sys) :
  (SET_FLAG < 2 ^ 32)%N -> SET_FLAG <> 0%N ->
  N.land SET_FLAG COMMAND_LINE_FLAG = 0%N ->
  this (fst (set' v s)) = candidate' v (this s) ->
  set' v (fst (set' v s)) = (fst (set' v s), Ok tt).
Proof.
  intros HS Hnz Hdisj Hthis. apply set_unchanged. rewrite Hthis.
  destruct (candidate_isSet v (this s) HS Hnz Hdisj) as (Hset & Hv).
  unfold unchanged_by. rewrite Hset, Hv. cbn. apply String.eqb_refl.
Qed.

(** With [Options::warnWhenInvalid] on, a value that fails validation is
    dropped with a warning in the log: the option is what it was before,
    [set] does not throw for it, and the action is invoked all the same,
    on the option with its old value. *)
Theorem set_warns_and_runs_action (v : string) (s : Sys) (e : Exception) :
  warnWhenInvalid s = true ->
  unchanged_by SET_FLAG v (this s) = false ->
  validate' (candidate' v (this s)) = Raise (ThrowException e) ->
  set' v s =
    run_action E
      (mkSys (this s) true (world s)
         (trace s ++
          [CLogWarning (("Invalid value for option '" +:+ name (this s)
                         +:+ "'") +:+ ": " +:+ message e)])).
Proof.
  intros Hwarn Hskip Hval. rewrite (set_validates v s Hskip), Hval, Hwarn.
  reflexivity.
Qed.

(** Only a [cb::Exception] counts as a validation failure: when validation
    throws anything else, the value goes through [set] uncaught and the
    option is left marked set and holding the new value; the action is not
    invoked. *)
Theorem set_other_exception_keeps_value (v : string) (s : Sys) (t : thrown) :
  unchanged_by SET_FLAG v (this s) = false ->
  validate' (candidate' v (this s)) = Raise t ->
  (forall e, t <> ThrowException e) ->
  set' v s =
    (mkSys (candidate' v (this s)) (warnWhenInvalid s) (world s) (trace s),
     Raise t).
Proof.
  intros Hskip Hval Hnot. rewrite (set_validates v s Hskip), Hval.
  destruct t as [e|what|]; [now destruct (Hnot e) | reflexivity..].
Qed.

(** *** [reset] and [unset] *)

Lemma cleared_not_set (o : Option) :
  (SET_FLAG < 2 ^ 32)%N ->
  isSet SET_FLAG (cleared SET_FLAG o) = false /\
  value (cleared SET_FLAG o) = "".
Proof.
  intros HS. destruct o as [n ty h f v0 d p a c].
  unfold cleared, isSet, has_flag, set_flags, set_value. cbn.
  rewrite flag_cleared; [split; reflexivity | assumption | apply N.land_diag].
Qed.

Lemma reset_run (s : Sys) :
  reset SET_FLAG E s =
    if negb (isSet SET_FLAG (this s)) && String.eqb (value (this s)) ""
    then (s, Ok tt)
    else run_action E (mkSys (cleared SET_FLAG (this s)) (warnWhenInvalid s)
                             (world s) (trace s)).
Proof.
  destruct s as [o warn w tr].
  unfold reset, Eff.bind at 1, read at 1, gets, id. cbn [this].
  destruct (negb (isSet SET_FLAG o) && String.eqb (value o) "");
    [reflexivity|].
  unfold Eff.bind, update, modify. cbn.
  unfold cleared. destruct o; reflexivity.
Qed.

(** [reset] does nothing, and invokes no action, on an option that is not
    set and holds no text; on any other it clears the set flag and the
    value and then invokes the action.  If the action leaves the option as
    it is handed it (as it does when there is none), a further [reset] on
    what [reset] left does nothing. *)
Theorem reset_clears (s : Sys) :
  (SET_FLAG < 2 ^ 32)%N ->
  let idle := negb (isSet SET_FLAG (this s)) && String.eqb (value (this s)) ""
  in
  let s1 := mkSys (cleared SET_FLAG (this s)) (warnWhenInvalid s) (world s)
                  (trace s) in
  reset SET_FLAG E s = (if idle then (s, Ok tt) else run_action E s1) /\
  isSet SET_FLAG (this s1) = false /\
  value (this s1) = "" /\
  (action (this s) = None -> run_action E s1 = (s1, Ok tt)) /\
  (this (fst (run_action E s1)) = this s1 ->
   reset SET_FLAG E (fst (reset SET_FLAG E s))
     = (fst (reset SET_FLAG E s), Ok tt)).
Proof.
  intros HS idle s1.
  destruct (cleared_not_set (this s) HS) as (Hset & Hval).
  split; [apply reset_run|]. split; [assumption|]. split; [assumption|].
  split.
  - intros Hact. unfold run_action. subst s1. cbn [this].
    replace (action (cleared SET_FLAG (this s))) with (action (this s))
      by (destruct (this s); reflexivity).
    now rewrite Hact.
  - intros Hkept. rewrite (reset_run s). fold idle. fold s1.
    destruct idle eqn:Hidle; cbn [fst].
    + rewrite reset_run. fold idle. now rewrite Hidle.
    + rewrite reset_run, Hkept. subst s1. cbn [this].
      now rewrite Hset, Hval.
Qed.

Lemma land_land_0 (x m F : N) :
  N.land x F = 0%N -> N.land (N.land x m) F = 0%N.
Proof.
  intros H. rewrite <- N.land_assoc, (N.land_comm m), N.land_assoc, H.
  apply N.land_0_l.
Qed.

(** After [unset], an option that stands alone (no parent, no action) has
    neither value nor default: [hasValue] is false and both texts are
    empty. *)
Theorem unset_forgets (s : Sys) :
  (SET_FLAG < 2 ^ 32)%N -> (DEFAULT_SET_FLAG < 2 ^ 32)%N ->
  parent (this s) = None -> action (this s) = None ->
  let out := unset DEFAULT_SET_FLAG SET_FLAG E s in
  snd out = Ok tt /\
  hasValue' (this (fst out)) = false /\
  value (this (fst out)) = "" /\
  defaultValue (this (fst out)) = "".
Proof.
  intros HS HD Hpar Hact out. subst out.
  destruct s as [[n ty h f v0 d p a c] warn w tr].
  cbn in Hpar, Hact. subst p a.
  set (o1 := mkOption n ty h (N.land f (lnot32 DEFAULT_SET_FLAG)) v0 ""
                      None None c).
  assert (Hrun : unset DEFAULT_SET_FLAG SET_FLAG E
                   (mkSys (mkOption n ty h f v0 d None None c) warn w tr)
                 = reset SET_FLAG E (mkSys o1 warn w tr)) by reflexivity.
  rewrite Hrun, reset_run. cbn [this warnWhenInvalid world trace].
  assert (Hd1 : N.land (flags o1) DEFAULT_SET_FLAG = 0%N).
  { subst o1. cbn [flags].
    apply flag_cleared; [assumption | apply N.land_diag]. }
  destruct (isSet SET_FLAG o1) eqn:Hs; cbn [negb andb];
    [|destruct (String.eqb (value o1) "") eqn:Hv].
  - destruct (cleared_not_set o1 HS) as (Hset & Hval).
    unfold run_action. cbn.
    split; [reflexivity|]. split; [|split; reflexivity].
    unfold isSet, has_flag. cbn.
    rewrite flag_cleared by (assumption || apply N.land_diag).
    subst o1. cbn [flags] in Hd1. now rewrite (@land_land_0 _ _ _ Hd1).
  - apply String.eqb_eq in Hv. cbn [fst snd this].
    split; [reflexivity|]. split; [|split; [assumption | reflexivity]].
    rewrite hasValue_unfold, Hs. unfold hasDefault, has_flag.
    now rewrite Hd1.
  - destruct (cleared_not_set o1 HS) as (Hset & Hval).
    unfold run_action. cbn.
    split; [reflexivity|]. split; [|split; reflexivity].
    unfold isSet, has_flag. cbn.
    rewrite flag_cleared by (assumption || apply N.land_diag).
    subst o1. cbn [flags] in Hd1. now rewrite (@land_land_0 _ _ _ Hd1).
Qed.

(** *** Lists of values and [append] *)

(** [set(const strings_t &values)] joins the values with single spaces
    starting from the second one: the first element of the vector does not
    reach the option, and a vector of at most one element sets the empty
    text. *)
Theorem set_strings_skips_first (values : list string) :
  set_strings DEFAULT_SET_FLAG SET_FLAG OPTIONAL_FLAG COMMAND_LINE_FLAG E
    values
  = set' (String.concat " " (tail values)).
Proof.
  unfold set_strings. f_equal.
  destruct values as [|x rest]; [reflexivity|].
  replace (length (x :: rest) - 1)%nat with (length rest) by (cbn; lia).
  cbn [tail].
  exact (@join_from_spec rest [x] "" ltac:(discriminate)).
Qed.

(** A plain text option: a string without constraint or action. *)
Lemma set_plain (v : string) (s : Sys) :
  type (this s) = STRING_TYPE -> constraint (this s) = None ->
  action (this s) = None ->
  unchanged_by SET_FLAG v (this s) = false ->
  set' v s =
    (mkSys (candidate' v (this s)) (warnWhenInvalid s) (world s) (trace s),
     Ok tt).
Proof.
  intros Hty Hc Ha Hskip. rewrite (set_validates v s Hskip).
  destruct s as [[n ty h f v0 d p a c] warn w tr]. cbn in Hty, Hc, Ha.
  subst ty c a. reflexivity.
Qed.

Lemma toString_candidate (v : string) (o : Option) :
  (SET_FLAG < 2 ^ 32)%N -> SET_FLAG <> 0%N ->
  N.land SET_FLAG COMMAND_LINE_FLAG = 0%N ->
  toString' (candidate' v o) = Ok v.
Proof.
  intros HS Hnz Hdisj.
  destruct (candidate_isSet v o HS Hnz Hdisj) as (Hset & Hv).
  unfold toString, toString_with. now rewrite Hset, Hv.
Qed.

(** On a plain text option that is not yet set, two [append]s in a row
    leave the two texts joined by one space; a first text that is empty
    counts as no text at all, and the option then holds the second text
    alone. *)
Theorem append_accumulates (a b : string) (s : Sys) :
  (SET_FLAG < 2 ^ 32)%N -> SET_FLAG <> 0%N ->
  N.land SET_FLAG COMMAND_LINE_FLAG = 0%N ->
  type (this s) = STRING_TYPE -> constraint (this s) = None ->
  action (this s) = None ->
  isSet SET_FLAG (this s) = false ->
  let append' :=
    append DEFAULT_SET_FLAG SET_FLAG OPTIONAL_FLAG COMMAND_LINE_FLAG E in
  let out := (append' a;; append' b) s in
  snd out = Ok tt /\
  toString' (this (fst out)) =
    Ok (if String.eqb a "" then b else a +:+ " " +:+ b).
Proof.
  intros HS Hnz Hdisj Hty Hc Ha Hunset append' out. subst out append'.
  destruct (candidate_isSet a (this s) HS Hnz Hdisj) as (Hset1 & Hv1).
  assert (Hfirst : append DEFAULT_SET_FLAG SET_FLAG OPTIONAL_FLAG
                     COMMAND_LINE_FLAG E a s =
                   (mkSys (candidate' a (this s)) (warnWhenInvalid s)
                          (world s) (trace s), Ok tt)).
  { unfold append, Eff.bind at 1, read at 1, gets, id. rewrite Hunset.
    cbn [andb]. apply set_plain; try assumption.
    unfold unchanged_by. now rewrite Hunset. }
  assert (Hsecond : forall v,
            unchanged_by SET_FLAG v (candidate' a (this s)) = false ->
            set' v (mkSys (candidate' a (this s)) (warnWhenInvalid s)
                      (world s) (trace s)) =
            (mkSys (candidate' v (candidate' a (this s))) (warnWhenInvalid s)
                   (world s) (trace s), Ok tt)).
  { intros v Hskip.
    apply (set_plain v (mkSys (candidate' a (this s)) (warnWhenInvalid s)
                              (world s) (trace s)));
      cbn [this]; try assumption; destruct (this s); assumption. }
  assert (Hout : exists o2,
            (append DEFAULT_SET_FLAG SET_FLAG OPTIONAL_FLAG
               COMMAND_LINE_FLAG E a;;
             append DEFAULT_SET_FLAG SET_FLAG OPTIONAL_FLAG
               COMMAND_LINE_FLAG E b) s =
            (mkSys o2 (warnWhenInvalid s) (world s) (trace s), Ok tt) /\
            toString' o2 =
              Ok (if String.eqb a "" then b else a +:+ " " +:+ b)).
  { unfold Eff.bind at 1. rewrite Hfirst.
    unfold append, Eff.bind at 1, read at 1, gets, id. cbn [this].
    rewrite Hset1, Hv1. cbn [andb].
    destruct (String.eqb a "") eqn:Hempty; cbn [negb].
    - destruct (String.eqb a b) eqn:Hb.
      + apply String.eqb_eq in Hb. subst b.
        rewrite set_unchanged.
        * eexists. split; [reflexivity|]. now apply toString_candidate.
        * unfold unchanged_by. cbn [this]. rewrite Hset1, Hv1.
          cbn [andb]. apply String.eqb_refl.
      + rewrite Hsecond.
        * eexists. split; [reflexivity|]. now apply toString_candidate.
        * unfold unchanged_by. now rewrite Hset1, Hv1, Hb.
    - rewrite Hsecond.
      + eexists. split; [reflexivity|]. now apply toString_candidate.
      + unfold unchanged_by. rewrite Hset1, Hv1.
        cbn [andb]. apply String.eqb_neq. intros Heq.
        apply (f_equal String.length) in Heq.
        rewrite !length_append in Heq. cbn in Heq. lia. }
  destruct Hout as (o2 & -> & Hto). split; [reflexivity | exact Hto].
Qed.

(** *** [parse] *)

Variable String_bool : bool -> string.

Abbreviation parse' :=
  (parse DEFAULT_SET_FLAG SET_FLAG OPTIONAL_FLAG COMMAND_LINE_FLAG E
         String_bool).

Lemma bind_Ok_inv {S A B} (m : M S A) (k : A -> M S B) (s : S) (r : B) :
  snd (Eff.bind m k s) = Ok r ->
  exists a s', m s = (s', Ok a) /\ snd (k a s') = Ok r.
Proof.
  unfold Eff.bind. destruct (m s) as [s' [a| |]]; cbn; intros H;
    [now exists a, s' | discriminate..].
Qed.

Lemma then_ret_Ok {S A B} (m : M S A) (x r : B) (s : S) :
  snd ((m;; ret x) s) = Ok r -> r = x.
Proof.
  intros H. apply bind_Ok_inv in H. destruct H as (a & s' & _ & H).
  cbn in H. congruence.
Qed.

(** On [i < args.size()], [parse] never indexes [args] out of range:
    whenever it returns, the index it hands back is one or two past [i]
    and not past the end.  It consumes the argument at [i] and at most one
    more. *)
Theorem parse_stays_in_bounds (shortName : option ascii) (i : nat)
    (args : list string) (s : Sys) (r : option nat) :
  (i < length args)%nat ->
  snd (parse' shortName i args s) = Ok r ->
  exists i', r = Some i' /\
             (i < i' <= i + 2)%nat /\ (i' <= length args)%nat.
Proof.
  intros Hi Hr. unfold parse in Hr.
  destruct (nth_error args i) as [arg|] eqn:Harg;
    [|apply nth_error_None in Harg; lia].
  destruct (split_equals arg) as [[n v]|].
  { apply then_ret_Ok in Hr. exists (S i). split; [assumption | lia]. }
  apply bind_Ok_inv in Hr. destruct Hr as (o & s1 & _ & Hr).
  assert (Hbool : forall s2 r2,
            snd ((set_bool DEFAULT_SET_FLAG SET_FLAG OPTIONAL_FLAG
                    COMMAND_LINE_FLAG E String_bool true;;
                  ret (Some (S i))) s2) = Ok r2 ->
            exists i', r2 = Some i' /\
                       (i < i' <= i + 2)%nat /\ (i' <= length args)%nat).
  { intros s2 r2 H. apply then_ret_Ok in H. exists (S i).
    split; [assumption | lia]. }
  assert (Hrest :
    snd ((if negb (isOptional OPTIONAL_FLAG o) then
            if (S i =? length args)%nat then
              text <- (fun s => (s, printHelp_stream DEFAULT_SET_FLAG
                                      SET_FLAG OPTIONAL_FLAG E shortName true
                                      (this s) (world s)));;
              LOG_WARNING ("Missing required argument for option:" +:+
                           String "010" text);;
              ret (Some (S i))
            else
              match nth_error args (S i) with
              | Some a => set' a;; ret (Some (S (S i)))
              | None => ret None
              end
          else if (S i <? length args)%nat then
            match nth_error args (S i) with
            | Some a =>
                if negb (starts_with_dash a)
                then set' a;; ret (Some (S (S i)))
                else run_action E;; ret (Some (S i))
            | None => ret None
            end
          else run_action E;; ret (Some (S i))) s1) = Ok r ->
    exists i', r = Some i' /\
               (i < i' <= i + 2)%nat /\ (i' <= length args)%nat).
  { clear Hr. intros Hr.
    destruct (negb (isOptional OPTIONAL_FLAG o)).
    - destruct (S i =? length args)%nat eqn:Hend.
      + apply bind_Ok_inv in Hr. destruct Hr as (text & s2 & _ & Hr).
        apply then_ret_Ok in Hr. exists (S i). split; [assumption | lia].
      + apply Nat.eqb_neq in Hend.
        destruct (nth_error args (S i)) as [a|] eqn:Ha;
          [|apply nth_error_None in Ha; lia].
        apply then_ret_Ok in Hr. exists (S (S i)).
        split; [assumption | lia].
    - destruct (S i <? length args)%nat eqn:Hmore.
      + apply Nat.ltb_lt in Hmore.
        destruct (nth_error args (S i)) as [a|] eqn:Ha;
          [|apply nth_error_None in Ha; lia].
        destruct (negb (starts_with_dash a)); apply then_ret_Ok in Hr.
        * exists (S (S i)). split; [assumption | lia].
        * exists (S i). split; [assumption | lia].
      + apply then_ret_Ok in Hr. exists (S i). split; [assumption | lia]. }
  destruct (type o); solve [eapply Hbool; eassumption | now apply Hrest].
Qed.

Lemma split_equals_app (n v : string) :
  split_equals n = None ->
  split_equals (n +:+ String "=" v) = Some (n, v).
Proof.
  induction n as [|c n IH]; intros Hn; [reflexivity|].
  change (String c n +:+ String "=" v) with (String c (n +:+ String "=" v)).
  cbn [split_equals] in Hn |- *.
  destruct (Ascii.eqb c "="); [discriminate|].
  destruct (split_equals n) as [[a b]|]; [discriminate|].
  now rewrite IH.
Qed.

(** An argument of the form [name=value] sets the option to everything
    after its first '=' (further '=' signs belong to the value), for an
    option of any type, and consumes that argument only. *)
Theorem parse_equals_form (shortName : option ascii) (i : nat)
    (args : list string) (s : Sys) (n v : string) :
  nth_error args i = Some (n +:+ String "=" v) ->
  split_equals n = None ->
  parse' shortName i args s = (set' v;; ret (Some (S i))) s.
Proof.
  intros Harg Hn. unfold parse. rewrite Harg.
  now rewrite (split_equals_app n v Hn).
Qed.


End Option.
Abbreviation DS := Examples.DEFAULT_SET_FLAG.
Abbreviation ST := Examples.SET_FLAG.
Abbreviation OP := Examples.OPTIONAL_FLAG.
Abbreviation CL := Examples.COMMAND_LINE_FLAG.

(** Witness: the option "threads", set to "4". *)
Lemma toString_of_hasValue_witness :
  exists v, toString DS ST Examples.threads_option = Ok v.
Proof.
  destruct (@toString_of_hasValue DS ST Examples.threads_option)
    as (Hvalue & _).
  apply Hvalue. reflexivity.
Defined.

(** Witness: a proxy of "threads" reads "4". *)
Lemma proxy_reads_parent_witness :
  isSet ST (proxy DS ST Examples.threads_option) = false /\
  toString DS ST (proxy DS ST Examples.threads_option) = Ok "4".
Proof.
  destruct (@proxy_reads_parent DS ST Examples.threads_option)
    as (Hset & _ & Hread & _).
  - reflexivity.
  - reflexivity.
  - split; [exact Hset|]. rewrite Hread; reflexivity.
Defined.

(** Witness: "threads" goes from "4" to "8". *)
Lemma set_then_toString_witness :
  toString DS ST (candidate ST CL "8" Examples.threads_option) = Ok "8".
Proof.
  destruct (@set_then_toString DS ST OP CL Z unit Examples.option_env "8"
              Examples.option_sys) as (_ & _ & Hread & _).
  - reflexivity.
  - discriminate.
  - reflexivity.
  - reflexivity.
  - reflexivity.
  - exact Hread.
Defined.

(** Witness: "threads" is set to "8" twice; the action ran once. *)
Lemma set_twice_witness :
  let s1 := fst (set DS ST OP CL Examples.option_env "8"
                   Examples.option_sys) in
  set DS ST OP CL Examples.option_env "8" s1 = (s1, Ok tt) /\
  trace s1 = [CAction 0%N].
Proof.
  split.
  - apply (@set_twice DS ST OP CL Z unit Examples.option_env "8"
             Examples.option_sys).
    + reflexivity.
    + discriminate.
    + reflexivity.
    + reflexivity.
  - reflexivity.
Defined.

(** Witness: "threads" is given "many" while invalid values only warn. *)
Lemma set_warns_and_runs_action_witness :
  this (fst (set DS ST OP CL Examples.option_env "many"
               (Scenarios.sys_of Examples.threads_option true)))
    = Examples.threads_option /\
  snd (set DS ST OP CL Examples.option_env "many"
         (Scenarios.sys_of Examples.threads_option true)) = Ok tt /\
  trace (fst (set DS ST OP CL Examples.option_env "many"
                (Scenarios.sys_of Examples.threads_option true)))
    = [CLogWarning
         "Invalid value for option 'threads': Invalid integer";
       CAction 0%N].
Proof.
  rewrite (@set_warns_and_runs_action DS ST OP CL Z unit Examples.option_env
             "many" (Scenarios.sys_of Examples.threads_option true)
             (mkException "Invalid integer" 0)).
  - repeat split.
  - reflexivity.
  - reflexivity.
  - reflexivity.
Defined.

(** Witness: the constraint of "user" throws a [std::bad_cast]. *)
Lemma set_other_exception_keeps_value_witness :
  value (this (fst (set DS ST OP CL Scenarios.option_env_std "root"
                      (Scenarios.sys_of Scenarios.checked_option false))))
    = "root" /\
  snd (set DS ST OP CL Scenarios.option_env_std "root"
         (Scenarios.sys_of Scenarios.checked_option false))
    = Raise (ThrowStd "bad_cast").
Proof.
  rewrite (@set_other_exception_keeps_value DS ST OP CL Z unit
             Scenarios.option_env_std "root"
             (Scenarios.sys_of Scenarios.checked_option false)
             (ThrowStd "bad_cast")).
  - split; reflexivity.
  - reflexivity.
  - reflexivity.
  - intros e. discriminate.
Defined.

(** Witness: "threads" is reset, and reset again; its action leaves the
    option alone. *)
Lemma reset_clears_witness :
  reset ST Examples.option_env Examples.option_sys =
    run_action Examples.option_env
      (mkSys (cleared ST Examples.threads_option) false tt []) /\
  value (cleared ST Examples.threads_option) = "" /\
  reset ST Examples.option_env
    (fst (reset ST Examples.option_env Examples.option_sys))
  = (fst (reset ST Examples.option_env Examples.option_sys), Ok tt).
Proof.
  destruct (@reset_clears ST Z unit Examples.option_env Examples.option_sys)
    as (Hrun & _ & Hvalue & _ & Hagain).
  - reflexivity.
  - split; [exact Hrun|]. split; [exact Hvalue|].
    apply Hagain. reflexivity.
Defined.

(** Witness: "user", set to "alice" with default "nobody", is unset. *)
Lemma unset_forgets_witness :
  hasValue DS ST
    (this (fst (unset DS ST Examples.option_env
                  (Scenarios.sys_of Scenarios.named_option false))))
    = false.
Proof.
  destruct (@unset_forgets DS ST Z unit Examples.option_env
              (Scenarios.sys_of Scenarios.named_option false))
    as (_ & Hvalue & _).
  - reflexivity.
  - reflexivity.
  - reflexivity.
  - reflexivity.
  - exact Hvalue.
Defined.

(** Witness: two files are appended to "include". *)
Lemma append_accumulates_witness :
  toString DS ST
    (this (fst ((append DS ST OP CL Examples.option_env "a.h";;
                 append DS ST OP CL Examples.option_env "b.h")
                  (Scenarios.sys_of Scenarios.fresh_option false))))
    = Ok "a.h b.h".
Proof.
  destruct (@append_accumulates DS ST OP CL Z unit Examples.option_env
              "a.h" "b.h" (Scenarios.sys_of Scenarios.fresh_option false))
    as (_ & Hread).
  - reflexivity.
  - discriminate.
  - reflexivity.
  - reflexivity.
  - reflexivity.
  - reflexivity.
  - reflexivity.
  - exact Hread.
Defined.

(** Witness: [--threads 8] at the start of the command line. *)
Lemma parse_stays_in_bounds_witness :
  exists i',
    Some 2%nat = Some i' /\ (0 < i' <= 0 + 2)%nat /\ (i' <= 2)%nat.
Proof.
  apply (@parse_stays_in_bounds DS ST OP CL Z unit Examples.option_env
           Scenarios.String_bool None 0 ["--threads"; "8"]
           Examples.option_sys (Some 2%nat)).
  - cbn. lia.
  - reflexivity.
Defined.

(** Witness: [--threads=8=x]. *)
Lemma parse_equals_form_witness :
  parse DS ST OP CL Examples.option_env Scenarios.String_bool None 0
    ["--threads=8=x"] Examples.option_sys
  = (set DS ST OP CL Examples.option_env "8=x";; ret (Some 1%nat))
      Examples.option_sys.
Proof.
  apply (@parse_equals_form DS ST OP CL Z unit Examples.option_env
           Scenarios.String_bool None 0 ["--threads=8=x"]
           Examples.option_sys "--threads" "8=x").
  - reflexivity.
  - reflexivity.
Defined.


End OptionMore.
